(** * Session manager of the Application Insights properties plugin

    A shallow embedding of
    [extensions/applicationinsights-properties-js/src/Context/Session.ts]
    (classes [Session] and [_SessionManager]) and the properties of its
    session lifecycle: initialization from the cookie or from local storage,
    expiry and renewal, throttled cookie writes, backup, and the
    [id|acquisitionDate|renewalDate] wire format. *)

From Stdlib Require Import ZArith QArith Qabs Bool List String Ascii Lia.
From Stdlib Require Import DecimalString DecimalZ DecimalPos DecimalFacts.
Import ListNotations.

Local Open Scope string_scope.
Local Open Scope Z_scope.

(** ** JavaScript numbers

    A Number is NaN, an infinity, or a finite value.  The finite values are
    split into the integral ones, on which the session manager computes
    (millisecond counts), and the others.  Arithmetic is exact; binary64
    agrees with it as long as the operands and the result are integers of
    magnitude at most [2^53], which covers every time value a [Date] can
    hold.  Beyond that binary64 rounds; statements that depend on the
    exact value of a sum or difference keep within that range. *)

Inductive number : Type :=
| NaN
| Infinity (negative : bool)
| Int (z : Z)
| Frac (q : Q).

Definition of_Q (q : Q) : number :=
  let r := Qred q in
  if (Qden r =? 1)%positive then Int (Qnum r) else Frac r.

Definition num_neg (a : number) : number :=
  match a with
  | NaN => NaN
  | Infinity s => Infinity (negb s)
  | Int z => Int (- z)
  | Frac q => Frac (Qopp q)
  end.

Definition num_add (a b : number) : number :=
  match a, b with
  | NaN, _ | _, NaN => NaN
  | Infinity s, Infinity t => if Bool.eqb s t then Infinity s else NaN
  | Infinity s, _ => Infinity s
  | _, Infinity t => Infinity t
  | Int x, Int y => Int (x + y)
  | Int x, Frac q => of_Q (inject_Z x + q)
  | Frac p, Int y => of_Q (p + inject_Z y)
  | Frac p, Frac q => of_Q (p + q)
  end.

Definition num_sub (a b : number) : number := num_add a (num_neg b).

Definition Qltb (p q : Q) : bool := negb (Qle_bool q p).

(** [a < b]; every comparison with NaN is false. *)
Definition num_lt (a b : number) : bool :=
  match a, b with
  | NaN, _ | _, NaN => false
  | Infinity s, Infinity t => s && negb t
  | Infinity s, _ => s
  | _, Infinity t => negb t
  | Int x, Int y => x <? y
  | Int x, Frac q => Qltb (inject_Z x) q
  | Frac p, Int y => Qltb p (inject_Z y)
  | Frac p, Frac q => Qltb p q
  end.

Definition num_gt (a b : number) : bool := num_lt b a.

(** ToBoolean on a Number: [0] and NaN are falsy. *)
Definition truthy_number (a : number) : bool :=
  match a with
  | NaN => false
  | Int z => negb (z =? 0)
  | _ => true
  end.

(** ToBoolean on a String: only the empty string is falsy. *)
Definition truthy_string (s : string) : bool :=
  match s with EmptyString => false | _ => true end.

(** A property that may be [undefined]. *)
Definition truthy_opt {A} (truthy : A -> bool) (v : option A) : bool :=
  match v with Some a => truthy a | None => false end.

(** ToNumber on a Number property: [undefined] converts to NaN. *)
Definition num_of (v : option number) : number :=
  match v with Some n => n | None => NaN end.

(** ** Dates

    [maxTime] is the largest time value of a Date, 8.64e15 ms.  TimeClip
    turns a Number into a time value: an integer in range, or NaN. *)

Definition maxTime : Z := 8640000000000000.

Definition TimeClip (a : number) : number :=
  match a with
  | NaN | Infinity _ => NaN
  | Int z => if Z.abs z <=? maxTime then Int z else NaN
  | Frac q =>
      if Qle_bool (Qabs q) (inject_Z maxTime)
      then Int (Z.quot (Qnum q) (Zpos (Qden q))) else NaN
  end.

Record Date : Type := { DateValue : number }.

(** [new Date(n)] for a Number [n]. *)
Definition new_Date (n : number) : Date := {| DateValue := TimeClip n |}.

(** [d.setTime(n)]: the time value of [d] is replaced, whatever it was. *)
Definition setTime (n : number) : Date := {| DateValue := TimeClip n |}.

(** ** Strings: [split] and [join] on the delimiter *)

Definition delimiter : ascii := "|"%char.

(** [s.split("|")]: the fields between the delimiters, never an empty list. *)
Fixpoint split (sep : ascii) (s : string) : list string :=
  match s with
  | EmptyString => [EmptyString]
  | String c rest =>
      if Ascii.eqb c sep then EmptyString :: split sep rest
      else match split sep rest with
           | field :: fields => String c field :: fields
           | [] => [String c EmptyString]
           end
  end.

(** Decimal rendering of an integer, as Number::toString does for the
    integers up to [2^53]. *)
Definition decimal (z : Z) : string := NilZero.string_of_int (Z.to_int z).

(** A decimal integer literal: an optional sign and at least one digit. *)
Definition digits_value (s : string) : option Z :=
  option_map Z.of_uint (NilZero.uint_of_string s).

Definition integer_literal (s : string) : option Z :=
  match s with
  | String "-" rest => option_map Z.opp (digits_value rest)
  | String "+" rest => digits_value rest
  | _ => digits_value s
  end.

(** The ASCII characters that can occur in a StringNumericLiteral: white
    space, digits, signs, the dot, exponent marks, the letters of
    [Infinity], and the letters of hexadecimal, octal and binary literals.
    Bytes above 127 belong to characters outside ASCII, some of which are
    white space, and are not judged here. *)
Definition numeric_char (c : ascii) : bool :=
  let n := nat_of_ascii c in
  (128 <=? n)%nat
  || (9 <=? n)%nat && (n <=? 13)%nat
  || (n =? 32)%nat
  || (48 <=? n)%nat && (n <=? 57)%nat
  || existsb (Ascii.eqb c)
       (list_ascii_of_string "+-.eEInfinityxXoObBabcdefABCDEF").

Fixpoint all_chars (p : ascii -> bool) (s : string) : bool :=
  match s with
  | EmptyString => true
  | String c rest => p c && all_chars p rest
  end.

Definition safeInteger : Z := 2 ^ 53.

(** ** Values, exceptions and conversion to a Number *)

Inductive exn : Type :=
| TypeError (message : string).

Inductive outcome (A : Type) : Type :=
| Returns (a : A)
| Throws (e : exn).
Arguments Returns {A} a.
Arguments Throws {A} e.

(** JavaScript values, as far as ToNumber tells them apart.  A Symbol has
    no numeric value: converting it throws a TypeError. *)
Inductive value : Type :=
| VUndefined
| VNumber (n : number)
| VString (s : string)
| VSymbol
| VDate (d : Date).

(** ** The host: collaborators of the session manager

    [Util], [DateTimeUtils] and the logger live in other packages, and the
    browser stands behind them.  Each call is recorded in a trace; what a
    call answers may depend on everything that happened before it.  The
    clock answers with a count of milliseconds.  The host also supplies the
    parts of the language runtime that are left open here: the numeric
    value of strings other than plain decimal integers, the rendering of
    numbers other than integers up to 2^53, and the calendar rendering of a
    time value. *)

Inductive LoggingSeverity : Type := CRITICAL | WARNING.

Inductive _InternalMessageId : Type :=
| ErrorParsingAISessionCookie
| SessionRenewalDateIsZero
| BrowserDoesNotSupportLocalStorage.

Inductive event : Type :=
| Call_getCookie (name : string)
| Call_getStorage (name : string)
| Call_setCookie (name value : string) (domain : option string)
| Call_setStorage (name value : string)
| Call_canUseLocalStorage
| Call_newId
| Call_Now
| Call_throwInternal (severity : LoggingSeverity) (msgId : _InternalMessageId)
    (msg : string) (properties : option string).

(** Most recent call first. *)
Definition trace : Type := list event.

Record Host : Type := {
  Util_getCookie : trace -> string -> option string;
  Util_getStorage : trace -> string -> option string;
  Util_canUseLocalStorage : trace -> bool;
  Util_newId : trace -> string;
  DateTimeUtils_Now : trace -> Z;
  Util_getExceptionName : exn -> string;
  Util_dump : exn -> string;
  StringToNumber_other : string -> number;
  Number_toString_other : number -> string;
  toUTCString_valid : Z -> string
}.

(** ** Data model

    The accessors of a configuration are taken to answer the same value at
    every call, a duration in whole milliseconds; an absent accessor is
    [None]. *)

Record ISessionConfig : Type := {
  sessionRenewalMs : option Z;
  sessionExpirationMs : option Z;
  cookieDomain : option string;
  namePrefix : option string
}.

(** The configuration as the constructor leaves it: both durations have an
    accessor. *)
Record SessionConfig : Type := {
  config_sessionRenewalMs : Z;
  config_sessionExpirationMs : Z;
  config_cookieDomain : option string;
  config_namePrefix : option string
}.

Record Session : Type := {
  id : option string;
  acquisitionDate : option number;
  renewalDate : option number
}.

Record _SessionManager : Type := {
  automaticSession : Session;
  config : SessionConfig;
  cookieUpdatedTimestamp : option number
}.

Definition acquisitionSpan : Z := 86400000.
Definition renewalSpan : Z := 1800000.
Definition cookieUpdateInterval : Z := 60000.
Definition cookieNameConst : string := "ai_session".

Definition new_Session : Session :=
  {| id := None; acquisitionDate := None; renewalDate := None |}.

(** [new _SessionManager(config, logger)] *)
Definition constructor (cfg : option ISessionConfig) : _SessionManager :=
  let cfg :=
    match cfg with
    | Some c => c
    | None => {| sessionRenewalMs := None; sessionExpirationMs := None;
                 cookieDomain := None; namePrefix := None |}
    end in
  {| automaticSession := new_Session;
     config :=
       {| config_sessionRenewalMs :=
            match sessionRenewalMs cfg with Some v => v | None => renewalSpan end;
          config_sessionExpirationMs :=
            match sessionExpirationMs cfg with Some v => v | None => acquisitionSpan end;
          config_cookieDomain := cookieDomain cfg;
          config_namePrefix := namePrefix cfg |};
     cookieUpdatedTimestamp := None |}.

Definition _storageNamePrefix (c : SessionConfig) : string :=
  match config_namePrefix c with
  | Some p => if truthy_string p then cookieNameConst ++ p else cookieNameConst
  | None => cookieNameConst
  end.

(** ** The machine: the manager and the trace of its calls *)

Record machine : Type := {
  self : _SessionManager;
  calls : trace
}.

Definition M (A : Type) : Type := machine -> outcome A * machine.

Definition ret {A} (a : A) : M A := fun s => (Returns a, s).

Definition bind {A B} (m : M A) (f : A -> M B) : M B :=
  fun s =>
    match m s with
    | (Returns a, s') => f a s'
    | (Throws e, s') => (Throws e, s')
    end.

(** [try { body } catch (e) { handler }]: what [body] did before it threw
    stays done. *)
Definition try_catch {A} (body : M A) (handler : exn -> M A) : M A :=
  fun s =>
    match body s with
    | (Returns a, s') => (Returns a, s')
    | (Throws e, s') => handler e s'
    end.

Definition lift {A} (o : outcome A) : M A := fun s => (o, s).

Definition when (b : bool) (m : M unit) : M unit := if b then m else ret tt.

Declare Scope js_scope.
Delimit Scope js_scope with js.
Notation "x <- m ;; k" := (bind m (fun x => k))
  (at level 61, m at next level, right associativity) : js_scope.
Notation "m ;; k" := (bind m (fun _ => k))
  (at level 61, right associativity) : js_scope.
Local Open Scope js_scope.

Definition this : M _SessionManager := fun s => (Returns (self s), s).

Definition set_self (f : _SessionManager -> _SessionManager) : M unit :=
  fun s => (Returns tt, {| self := f (self s); calls := calls s |}).

Definition set_automaticSession (f : Session -> Session) : M unit :=
  set_self (fun m =>
    {| automaticSession := f (automaticSession m);
       config := config m;
       cookieUpdatedTimestamp := cookieUpdatedTimestamp m |}).

Definition set_id (v : string) : M unit :=
  set_automaticSession (fun a =>
    {| id := Some v; acquisitionDate := acquisitionDate a;
       renewalDate := renewalDate a |}).

Definition set_acquisitionDate (v : number) : M unit :=
  set_automaticSession (fun a =>
    {| id := id a; acquisitionDate := Some v; renewalDate := renewalDate a |}).

Definition set_renewalDate (v : number) : M unit :=
  set_automaticSession (fun a =>
    {| id := id a; acquisitionDate := acquisitionDate a; renewalDate := Some v |}).

Definition set_cookieUpdatedTimestamp (v : number) : M unit :=
  set_self (fun m =>
    {| automaticSession := automaticSession m;
       config := config m;
       cookieUpdatedTimestamp := Some v |}).

(** A call to the host: the answer is computed from the trace so far, and
    the call is recorded. *)
Definition call {A} (answer : trace -> A) (e : event) : M A :=
  fun s => (Returns (answer (calls s)),
            {| self := self s; calls := e :: calls s |}).

(** ** The operations of [_SessionManager] *)

Section SessionManager.

Variable h : Host.

(** StringToNumber: a string with a character that no numeric literal
    contains is NaN; a plain decimal integer up to [2^53] is that integer;
    the host decides the rest. *)
Definition StringToNumber (s : string) : number :=
  if negb (all_chars numeric_char s) then NaN
  else match integer_literal s with
       | Some z =>
           if Z.abs z <=? safeInteger then Int z else StringToNumber_other h s
       | None => StringToNumber_other h s
       end.

Definition ToNumber (v : value) : outcome number :=
  match v with
  | VUndefined => Returns NaN
  | VNumber n => Returns n
  | VString s => Returns (StringToNumber s)
  | VSymbol => Throws (TypeError "Cannot convert a Symbol value to a number")
  | VDate d => Returns (DateValue d)
  end.

(** [+v] *)
Definition unary_plus (v : value) : M number := lift (ToNumber v).

(** Number::toString *)
Definition Number_toString (n : number) : string :=
  match n with
  | NaN => "NaN"
  | Infinity false => "Infinity"
  | Infinity true => "-Infinity"
  | Int z =>
      if Z.abs z <=? safeInteger then decimal z else Number_toString_other h n
  | Frac _ => Number_toString_other h n
  end.

(** An array element inside [join]: [undefined] renders as the empty string. *)
Definition join_element {A} (render : A -> string) (v : option A) : string :=
  match v with Some a => render a | None => "" end.

(** [[guid, acq, renewal].join('|')] *)
Definition join3 (guid : option string) (acq renewal : option number) : string :=
  String.concat "|"
    [join_element (fun s => s) guid;
     join_element Number_toString acq;
     join_element Number_toString renewal].

Definition toUTCString (d : Date) : string :=
  match DateValue d with
  | Int z => toUTCString_valid h z
  | _ => "Invalid Date"
  end.

Definition Now : M Z := call (DateTimeUtils_Now h) Call_Now.

Definition newId : M string := call (Util_newId h) Call_newId.

Definition getCookie (name : string) : M (option string) :=
  call (fun t => Util_getCookie h t name) (Call_getCookie name).

Definition getStorage (name : string) : M (option string) :=
  call (fun t => Util_getStorage h t name) (Call_getStorage name).

Definition canUseLocalStorage : M bool :=
  call (Util_canUseLocalStorage h) Call_canUseLocalStorage.

Definition throwInternal (severity : LoggingSeverity) (msgId : _InternalMessageId)
    (msg : string) (properties : option string) : M unit :=
  call (fun _ => tt) (Call_throwInternal severity msgId msg properties).

Definition setStorage (guid : option string) (acq renewal : option number) : M unit :=
  m <- this ;;
  call (fun _ => tt)
    (Call_setStorage (_storageNamePrefix (config m)) (join3 guid acq renewal)).

(** The expiry that [setCookie] gives the cookie: the session expiry or the
    renewal deadline, whichever is sooner.  [new Date()] starts at the
    current time; [setTime] replaces it on both branches. *)
Definition cookieExpiry (c : SessionConfig) (acq renewal : option number) : Date :=
  let acquisitionExpiry :=
    num_add (num_of acq) (Int (config_sessionExpirationMs c)) in
  let renewalExpiry :=
    num_add (num_of renewal) (Int (config_sessionRenewalMs c)) in
  if num_lt acquisitionExpiry renewalExpiry
  then setTime acquisitionExpiry
  else setTime renewalExpiry.

Definition setCookie (guid : option string) (acq renewal : option number) : M unit :=
  m <- this ;;
  let cookie := join3 guid acq renewal in
  let cookieDomnain := config_cookieDomain (config m) in
  call (fun _ => tt)
    (Call_setCookie (_storageNamePrefix (config m))
       (cookie ++ ";expires=" ++ toUTCString (cookieExpiry (config m) acq renewal))
       cookieDomnain) ;;
  now <- Now ;;
  set_cookieUpdatedTimestamp (Int now).

Definition renew : M unit :=
  now <- Now ;;
  guid <- newId ;;
  set_automaticSession (fun _ =>
    {| id := Some guid; acquisitionDate := Some (Int now);
       renewalDate := Some (Int now) |}) ;;
  m <- this ;;
  setCookie (id (automaticSession m)) (acquisitionDate (automaticSession m))
    (renewalDate (automaticSession m)) ;;
  usable <- canUseLocalStorage ;;
  when (negb usable)
    (throwInternal WARNING BrowserDoesNotSupportLocalStorage
       "Browser does not support local storage. Session durations will be inaccurate."
       None).

(** [x > 0 ? x : 0] *)
Definition positive_or_zero (x : number) : number :=
  if num_gt x (Int 0) then x else Int 0.

(** [x === 0] on a property *)
Definition is_zero (v : option number) : bool :=
  match v with Some (Int 0) => true | _ => false end.

(** The body of the [try] block in [initializeAutomaticSessionWithData]. *)
Definition coerce_dates (params : list string) : M unit :=
  match nth_error params 1 with
  | Some p1 =>
      acq <- unary_plus (VString p1) ;;
      v <- unary_plus (VDate (new_Date acq)) ;;
      set_acquisitionDate v ;;
      m <- this ;;
      set_acquisitionDate
        (positive_or_zero (num_of (acquisitionDate (automaticSession m))))
  | None => ret tt
  end ;;
  match nth_error params 2 with
  | Some p2 =>
      renewal <- unary_plus (VString p2) ;;
      v <- unary_plus (VDate (new_Date renewal)) ;;
      set_renewalDate v ;;
      m <- this ;;
      set_renewalDate
        (positive_or_zero (num_of (renewalDate (automaticSession m))))
  | None => ret tt
  end.

Definition initializeAutomaticSessionWithData (sessionData : string) : M unit :=
  let params := split delimiter sessionData in
  match nth_error params 0 with
  | Some p0 => set_id p0
  | None => ret tt
  end ;;
  try_catch (coerce_dates params)
    (fun e =>
       throwInternal CRITICAL ErrorParsingAISessionCookie
         ("Error parsing ai_session cookie, session will be reset: "
            ++ Util_getExceptionName h e)
         (Some (Util_dump h e))) ;;
  m <- this ;;
  when (is_zero (renewalDate (automaticSession m)))
    (throwInternal WARNING SessionRenewalDateIsZero
       "AI session renewal date is 0, session will be reset." None).

Definition initializeAutomaticSession : M unit :=
  m <- this ;;
  cookie <- getCookie (_storageNamePrefix (config m)) ;;
  (if truthy_opt truthy_string cookie then
     match cookie with
     | Some c => initializeAutomaticSessionWithData c
     | None => ret tt
     end
   else
     storage <- getStorage (_storageNamePrefix (config m)) ;;
     match storage with
     | Some st => when (truthy_string st) (initializeAutomaticSessionWithData st)
     | None => ret tt
     end) ;;
  m <- this ;;
  when (negb (truthy_opt truthy_string (id (automaticSession m)))) renew.

(** [now - acquisitionDate > sessionExpirationMs()] *)
Definition acquisitionExpired (now : Z) (m : _SessionManager) : bool :=
  num_gt (num_sub (Int now) (num_of (acquisitionDate (automaticSession m))))
    (Int (config_sessionExpirationMs (config m))).

(** [now - renewalDate > sessionRenewalMs()] *)
Definition renewalExpired (now : Z) (m : _SessionManager) : bool :=
  num_gt (num_sub (Int now) (num_of (renewalDate (automaticSession m))))
    (Int (config_sessionRenewalMs (config m))).

(** [!cookieUpdatedTimestamp || now - cookieUpdatedTimestamp > cookieUpdateInterval] *)
Definition cookieWriteDue (now : Z) (m : _SessionManager) : bool :=
  negb (truthy_opt truthy_number (cookieUpdatedTimestamp m))
  || num_gt (num_sub (Int now) (num_of (cookieUpdatedTimestamp m)))
       (Int cookieUpdateInterval).

Definition update : M unit :=
  m <- this ;;
  when (negb (truthy_opt truthy_string (id (automaticSession m))))
    initializeAutomaticSession ;;
  now <- Now ;;
  m <- this ;;
  if acquisitionExpired now m || renewalExpired now m then renew
  else
    when (cookieWriteDue now m)
      (set_renewalDate (Int now) ;;
       m <- this ;;
       setCookie (id (automaticSession m)) (acquisitionDate (automaticSession m))
         (renewalDate (automaticSession m))).

Definition backup : M unit :=
  m <- this ;;
  setStorage (id (automaticSession m)) (acquisitionDate (automaticSession m))
    (renewalDate (automaticSession m)).

End SessionManager.

(** ** A scripted host

    The cookie and the storage entry it finds, the readings of its clock and
    the ids it issues are given in advance; the [n]-th call to the clock or
    to the id generator answers with the [n]-th entry (the last one, once
    the list is used up).  Strings outside the decimal integers are not
    numbers for it, and it renders a time value by its millisecond count. *)

Definition is_Call_Now (e : event) : bool :=
  match e with Call_Now => true | _ => false end.

Definition is_Call_newId (e : event) : bool :=
  match e with Call_newId => true | _ => false end.

Definition is_Call_setCookie (e : event) : bool :=
  match e with Call_setCookie _ _ _ => true | _ => false end.

Definition is_critical (e : event) : bool :=
  match e with Call_throwInternal CRITICAL _ _ _ => true | _ => false end.

Definition count (p : event -> bool) (t : trace) : nat :=
  List.length (List.filter p t).

Definition scripted {A} (script : list A) (default : A) (n : nat) : A :=
  nth n script (last script default).

Definition scripted_host (cookie storage : option string) (localStorage : bool)
    (clock : list Z) (ids : list string) : Host :=
  {| Util_getCookie := fun _ _ => cookie;
     Util_getStorage := fun _ _ => storage;
     Util_canUseLocalStorage := fun _ => localStorage;
     Util_newId := fun t => scripted ids "" (count is_Call_newId t);
     DateTimeUtils_Now := fun t => scripted clock 0 (count is_Call_Now t);
     Util_getExceptionName := fun e => match e with TypeError _ => "TypeError" end;
     Util_dump := fun e => match e with TypeError msg => msg end;
     StringToNumber_other := fun _ => NaN;
     Number_toString_other := fun _ => "";
     toUTCString_valid := decimal |}.

Definition start (cfg : option ISessionConfig) : machine :=
  {| self := constructor cfg; calls := [] |}.

(** ** What each operation does to the machine *)

Definition with_session (m : _SessionManager) (a : Session) : _SessionManager :=
  {| automaticSession := a; config := config m;
     cookieUpdatedTimestamp := cookieUpdatedTimestamp m |}.

Definition with_timestamp (m : _SessionManager) (ts : number) : _SessionManager :=
  {| automaticSession := automaticSession m; config := config m;
     cookieUpdatedTimestamp := Some ts |}.

(** The event of a cookie write for the session [a] under configuration [c]. *)
Definition cookie_write (h : Host) (c : SessionConfig) (a : Session) : event :=
  Call_setCookie (_storageNamePrefix c)
    (join3 h (id a) (acquisitionDate a) (renewalDate a)
       ++ ";expires="
       ++ toUTCString h (cookieExpiry c (acquisitionDate a) (renewalDate a)))
    (config_cookieDomain c).

Definition storage_write (h : Host) (c : SessionConfig) (a : Session) : event :=
  Call_setStorage (_storageNamePrefix c)
    (join3 h (id a) (acquisitionDate a) (renewalDate a)).

Definition local_storage_warning : event :=
  Call_throwInternal WARNING BrowserDoesNotSupportLocalStorage
    "Browser does not support local storage. Session durations will be inaccurate."
    None.

Definition renewal_zero_warning : event :=
  Call_throwInternal WARNING SessionRenewalDateIsZero
    "AI session renewal date is 0, session will be reset." None.

(** The time value that a date field of the payload is read as. *)
Definition field_time (h : Host) (p : string) : number :=
  positive_or_zero (TimeClip (StringToNumber h p)).

(** The session after the fields [params] have been read into [a]. *)
Definition parsed (h : Host) (params : list string) (a : Session) : Session :=
  {| id := match nth_error params 0 with Some p => Some p | None => id a end;
     acquisitionDate :=
       match nth_error params 1 with
       | Some p => Some (field_time h p)
       | None => acquisitionDate a
       end;
     renewalDate :=
       match nth_error params 2 with
       | Some p => Some (field_time h p)
       | None => renewalDate a
       end |}.

Section Outcomes.

Variable h : Host.

(** The session that [renew] installs, and the trace up to its cookie write. *)
Definition renewed (t : trace) : Session :=
  {| id := Some (Util_newId h (Call_Now :: t));
     acquisitionDate := Some (Int (DateTimeUtils_Now h t));
     renewalDate := Some (Int (DateTimeUtils_Now h t)) |}.

Definition renew_trace (c : SessionConfig) (t : trace) : trace :=
  Call_Now :: cookie_write h c (renewed t) :: Call_newId :: Call_Now :: t.

Definition after_renew (s : machine) : machine :=
  {| self :=
       with_timestamp (with_session (self s) (renewed (calls s)))
         (Int (DateTimeUtils_Now h
            (cookie_write h (config (self s)) (renewed (calls s))
             :: Call_newId :: Call_Now :: calls s)));
     calls :=
       if Util_canUseLocalStorage h (renew_trace (config (self s)) (calls s))
       then Call_canUseLocalStorage :: renew_trace (config (self s)) (calls s)
       else local_storage_warning :: Call_canUseLocalStorage
              :: renew_trace (config (self s)) (calls s) |}.

Definition after_parse (params : list string) (s : machine) : machine :=
  {| self := with_session (self s) (parsed h params (automaticSession (self s)));
     calls :=
       if is_zero (renewalDate (parsed h params (automaticSession (self s))))
       then renewal_zero_warning :: calls s else calls s |}.

(** Initialization reads the cookie; without a cookie it reads local
    storage; what it finds it parses. *)
Definition after_read (s : machine) : machine :=
  let name := _storageNamePrefix (config (self s)) in
  let s1 := {| self := self s; calls := Call_getCookie name :: calls s |} in
  match Util_getCookie h (calls s) name with
  | Some (String c rest) => after_parse (split delimiter (String c rest)) s1
  | _ =>
      let s2 := {| self := self s; calls := Call_getStorage name :: calls s1 |} in
      match Util_getStorage h (calls s1) name with
      | Some (String c rest) => after_parse (split delimiter (String c rest)) s2
      | _ => s2
      end
  end.

Definition has_id (s : machine) : bool :=
  truthy_opt truthy_string (id (automaticSession (self s))).

Definition after_initialize (s : machine) : machine :=
  if has_id (after_read s) then after_read s else after_renew (after_read s).

(** The keep-alive branch of [update]: the renewal date moves to [now] and
    the cookie is written. *)
Definition kept_alive (now : Z) (a : Session) : Session :=
  {| id := id a; acquisitionDate := acquisitionDate a;
     renewalDate := Some (Int now) |}.

Definition after_keepalive (now : Z) (s : machine) : machine :=
  let a := kept_alive now (automaticSession (self s)) in
  {| self := with_timestamp (with_session (self s) a)
       (Int (DateTimeUtils_Now h (cookie_write h (config (self s)) a :: calls s)));
     calls := Call_Now :: cookie_write h (config (self s)) a :: calls s |}.

(** Once the session is initialized: read the clock, then renew, keep alive
    or do nothing. *)
Definition after_check (s : machine) : machine :=
  let now := DateTimeUtils_Now h (calls s) in
  let s1 := {| self := self s; calls := Call_Now :: calls s |} in
  if acquisitionExpired now (self s) || renewalExpired now (self s)
  then after_renew s1
  else if cookieWriteDue now (self s) then after_keepalive now s1 else s1.

Definition after_update (s : machine) : machine :=
  after_check (if has_id s then s else after_initialize s).

End Outcomes.

(** ** Notions used by the statements *)

Definition session_of (s : machine) : Session := automaticSession (self s).

Definition cookie_writes (t : trace) : nat := count is_Call_setCookie t.

(** The payload that initialization finds: the cookie, or else the entry in
    local storage. *)
Definition persisted (h : Host) (s : machine) : option string :=
  let name := _storageNamePrefix (config (self s)) in
  match Util_getCookie h (calls s) name with
  | Some (String c rest) => Some (String c rest)
  | _ =>
      match Util_getStorage h (Call_getCookie name :: calls s) name with
      | Some (String c rest) => Some (String c rest)
      | _ => None
      end
  end.


Definition minted (t : trace) : nat := count is_Call_newId t.

(** A manager holding the session [abc|1000|1000] and the given record of
    its last cookie write. *)
Definition live_machine (ts : option number) : machine :=
  {| self :=
       {| automaticSession :=
            {| id := Some "abc"; acquisitionDate := Some (Int 1000);
               renewalDate := Some (Int 1000) |};
          config := config (constructor None);
          cookieUpdatedTimestamp := ts |};
     calls := [] |}.

Definition malformed_parsed : Session :=
  {| id := Some "abc"; acquisitionDate := Some (Int 0);
     renewalDate := Some (Int 2000) |}.

(** A configuration whose renewal window is [10^13] ms. *)
Definition long_renewal : ISessionConfig :=
  {| sessionRenewalMs := Some (10 ^ 13); sessionExpirationMs := None;
     cookieDomain := None; namePrefix := None |}.

Definition is_set {A} (v : option A) : bool :=
  match v with Some _ => true | None => false end.

(** The invariant as C8 states it. *)
Definition id_iff_dates (a : Session) : Prop :=
  is_set (id a) = true <->
  is_set (acquisitionDate a) = true /\ is_set (renewalDate a) = true.

Definition dates_imply_id (a : Session) : Prop :=
  is_set (acquisitionDate a) = true \/ is_set (renewalDate a) = true ->
  is_set (id a) = true.

Definition populated (a : Session) : Prop :=
  is_set (id a) = true /\
  is_set (acquisitionDate a) = true /\ is_set (renewalDate a) = true.

Inductive operation : Type :=
| Do_update
| Do_backup
| Do_renew
| Do_initializeAutomaticSession
| Do_initializeAutomaticSessionWithData (sessionData : string).

Definition run (h : Host) (o : operation) : M unit :=
  match o with
  | Do_update => update h
  | Do_backup => backup h
  | Do_renew => renew h
  | Do_initializeAutomaticSession => initializeAutomaticSession h
  | Do_initializeAutomaticSessionWithData d => initializeAutomaticSessionWithData h d
  end.

(** The machines a manager can be in: a new one, and what any operation
    makes of a reachable one. *)
Inductive reachable (h : Host) : machine -> Prop :=
| reachable_start cfg t : reachable h {| self := constructor cfg; calls := t |}
| reachable_step o s s' :
    reachable h s -> run h o s = (Returns tt, s') -> reachable h s'.

Definition not_delimiter (c : ascii) : bool := negb (Ascii.eqb c delimiter).

Definition sample_machine : machine :=
  {| self :=
       with_session (constructor None)
         {| id := Some "abc"; acquisitionDate := Some (Int 1700000000000);
            renewalDate := Some (Int 1700000060000) |};
     calls := [] |}.

(** ** Further notions: what a run may add to the trace, and what it keeps *)

Definition is_Call_setStorage (e : event) : bool :=
  match e with Call_setStorage _ _ => true | _ => false end.

Definition is_Call_getStorage (e : event) : bool :=
  match e with Call_getStorage _ => true | _ => false end.

Definition storage_writes (t : trace) : nat := count is_Call_setStorage t.

Definition storage_reads (t : trace) : nat := count is_Call_getStorage t.

(** A call to a backend names the key [key]; other calls name no key. *)
Definition uses_key (key : string) (e : event) : bool :=
  match e with
  | Call_getCookie n | Call_getStorage n
  | Call_setCookie n _ _ | Call_setStorage n _ => String.eqb n key
  | _ => true
  end.

(** [t'] is [t] with further calls in front, all of which satisfy [P]. *)
Definition appends (P : event -> bool) (t t' : trace) : Prop :=
  exists d, t' = (d ++ t)%list /\ forallb P d = true.

(** [P] accepts every call that [update] can make under configuration [c]. *)
Definition admits_update (h : Host) (c : SessionConfig) (P : event -> bool) : Prop :=
  P Call_Now = true /\ P Call_newId = true /\ P Call_canUseLocalStorage = true /\
  P (Call_getCookie (_storageNamePrefix c)) = true /\
  P (Call_getStorage (_storageNamePrefix c)) = true /\
  P local_storage_warning = true /\ P renewal_zero_warning = true /\
  (forall a, P (cookie_write h c a) = true).

Definition not_storage_write_nor_critical (e : event) : bool :=
  negb (is_Call_setStorage e) && negb (is_critical e).

(** The configuration is kept, cookie writes are only added, and without a
    new cookie write the timestamp of the last one is kept. *)
Definition framed (s s' : machine) : Prop :=
  config (self s') = config (self s) /\
  (cookie_writes (calls s) <= cookie_writes (calls s'))%nat /\
  (cookie_writes (calls s') = cookie_writes (calls s) ->
   cookieUpdatedTimestamp (self s') = cookieUpdatedTimestamp (self s)).

(** Nothing left to do at clock reading [now]: the session has an id, no
    window is exceeded and no cookie write is due. *)
Definition settled (now : Z) (m : _SessionManager) : bool :=
  truthy_opt truthy_string (id (automaticSession m))
  && negb (acquisitionExpired now m || renewalExpired now m)
  && negb (cookieWriteDue now m).

(** The name prefix in effect: an absent accessor and an empty prefix both
    leave the key as it is. *)
Definition effective_prefix (c : SessionConfig) : string :=
  match config_namePrefix c with Some p => p | None => "" end.

(** A read of the persisted state: [Util.getCookie] or [Util.getStorage]. *)
Definition is_read (e : event) : bool :=
  match e with
  | Call_getCookie _ | Call_getStorage _ => true
  | _ => false
  end.

Definition reads (t : trace) : nat := count is_read t.

(** * Properties *)

Section Runs.

Variable h : Host.

Lemma setCookie_run guid acq renewal s :
  setCookie h guid acq renewal s =
  (Returns tt,
   {| self := with_timestamp (self s)
        (Int (DateTimeUtils_Now h
           (cookie_write h (config (self s))
              {| id := guid; acquisitionDate := acq; renewalDate := renewal |}
            :: calls s)));
      calls := Call_Now
        :: cookie_write h (config (self s))
             {| id := guid; acquisitionDate := acq; renewalDate := renewal |}
        :: calls s |}).
Proof. reflexivity. Qed.

Lemma setStorage_run guid acq renewal s :
  setStorage h guid acq renewal s =
  (Returns tt,
   {| self := self s;
      calls := storage_write h (config (self s))
                 {| id := guid; acquisitionDate := acq; renewalDate := renewal |}
               :: calls s |}).
Proof. reflexivity. Qed.

Lemma renew_run s : renew h s = (Returns tt, after_renew h s).
Proof.
  unfold renew, after_renew, bind, Now, newId, canUseLocalStorage, call; simpl.
  destruct (Util_canUseLocalStorage h _); reflexivity.
Qed.

Lemma coerce_dates_run params s :
  coerce_dates h params s =
  (Returns tt,
   {| self := with_session (self s)
        {| id := id (automaticSession (self s));
           acquisitionDate :=
             acquisitionDate (parsed h params (automaticSession (self s)));
           renewalDate :=
             renewalDate (parsed h params (automaticSession (self s))) |};
      calls := calls s |}).
Proof.
  destruct s as [[[i a r] c ts] t].
  unfold coerce_dates, parsed.
  destruct (nth_error params 1), (nth_error params 2); reflexivity.
Qed.

Lemma initializeAutomaticSessionWithData_run sessionData s :
  initializeAutomaticSessionWithData h sessionData s =
  (Returns tt, after_parse h (split delimiter sessionData) s).
Proof.
  unfold initializeAutomaticSessionWithData, after_parse, bind, try_catch.
  set (params := split delimiter sessionData).
  destruct s as [[[i a r] c ts] t].
  destruct (nth_error params 0) eqn:E0;
    cbv beta iota delta [set_id set_automaticSession set_self ret];
    rewrite coerce_dates_run;
    unfold parsed, this, when, with_session; rewrite E0;
    cbn [self automaticSession renewalDate acquisitionDate id config
         cookieUpdatedTimestamp calls];
    destruct (is_zero _); reflexivity.
Qed.

Lemma when_renew b s :
  when (negb b) (renew h) s = (Returns tt, if b then s else after_renew h s).
Proof. destruct b; [reflexivity | apply renew_run]. Qed.

Lemma initializeAutomaticSession_run s :
  initializeAutomaticSession h s = (Returns tt, after_initialize h s).
Proof.
  unfold initializeAutomaticSession, after_initialize, after_read, has_id,
    bind, this, getCookie, getStorage, call.
  cbn [self calls].
  destruct (Util_getCookie h (calls s) _) as [[|c rest]|];
    cbn [truthy_opt truthy_string];
    try (destruct (Util_getStorage h _ _) as [[|c' rest']|];
         cbn [when truthy_string ret]);
    try rewrite initializeAutomaticSessionWithData_run;
    apply when_renew.
Qed.

Lemma update_run s : update h s = (Returns tt, after_update h s).
Proof.
  unfold update, after_update, after_check, has_id, bind, this, Now, call.
  destruct (truthy_opt truthy_string (id (automaticSession (self s))));
    cbn [negb when ret]; try rewrite initializeAutomaticSession_run;
    cbn [self calls];
    match goal with
    | |- context [acquisitionExpired ?n ?m || renewalExpired ?n ?m] =>
        destruct (acquisitionExpired n m || renewalExpired n m)
    end; try (rewrite renew_run; reflexivity);
    match goal with
    | |- context [cookieWriteDue ?n ?m] => destruct (cookieWriteDue n m)
    end; reflexivity.
Qed.

Lemma backup_run s :
  backup h s =
  (Returns tt,
   {| self := self s;
      calls := storage_write h (config (self s)) (automaticSession (self s))
               :: calls s |}).
Proof. destruct s as [[[i a r] c ts] t]; reflexivity. Qed.

End Runs.

(** ** Runs on the scripted host *)

Example split_keeps_empty_fields :
  split delimiter "a||b|" = ["a"; ""; "b"; ""] /\ split delimiter "" = [""].
Proof. split; reflexivity. Qed.

(** A first visit: no cookie, no storage entry.  [update] renews inside the
    initialization and writes the cookie once. *)
Example update_on_first_visit :
  update (scripted_host None None true [5000] ["s1"]) (start None) =
  (Returns tt,
   {| self :=
        {| automaticSession :=
             {| id := Some "s1"; acquisitionDate := Some (Int 5000);
                renewalDate := Some (Int 5000) |};
           config := config (constructor None);
           cookieUpdatedTimestamp := Some (Int 5000) |};
      calls :=
        [Call_Now; Call_canUseLocalStorage; Call_Now;
         Call_setCookie "ai_session" "s1|5000|5000;expires=1805000" None;
         Call_newId; Call_Now;
         Call_getStorage "ai_session"; Call_getCookie "ai_session"] |}).
Proof. reflexivity. Qed.

(** A cookie without date fields: the dates stay unset, no window counts as
    exceeded, and the keep-alive branch writes the cookie with an empty
    acquisition date. *)
Example update_on_cookie_without_dates :
  update (scripted_host (Some "abc") None true [5000] ["s1"]) (start None) =
  (Returns tt,
   {| self :=
        {| automaticSession :=
             {| id := Some "abc"; acquisitionDate := None;
                renewalDate := Some (Int 5000) |};
           config := config (constructor None);
           cookieUpdatedTimestamp := Some (Int 5000) |};
      calls :=
        [Call_Now;
         Call_setCookie "ai_session" "abc||5000;expires=1805000" None;
         Call_Now; Call_getCookie "ai_session"] |}).
Proof. reflexivity. Qed.

Example backup_of_new_manager :
  backup (scripted_host None None true [5000] ["s1"]) (start None) =
  (Returns tt,
   {| self := constructor None;
      calls := [Call_setStorage "ai_session" "||"] |}).
Proof. reflexivity. Qed.

(** ** Arithmetic on integral numbers *)

Lemma num_gt_sub_Int a b c :
  num_gt (num_sub (Int a) (Int b)) (Int c) = (c <? a - b).
Proof. unfold num_gt, num_sub; simpl. f_equal; lia. Qed.

Lemma num_gt_sub_undefined a c :
  num_gt (num_sub (Int a) (num_of None)) (Int c) = false.
Proof. reflexivity. Qed.

Lemma scripted_single {A} (x d : A) n : scripted [x] d n = x.
Proof. unfold scripted; destruct n as [|[|n]]; reflexivity. Qed.

(** ** C1: [update] leaves the session id populated *)

Section IdPopulated.

Variable h : Host.
Hypothesis newId_nonempty : forall t, Util_newId h t <> "".

Lemma truthy_string_nonempty g : g <> "" -> truthy_string g = true.
Proof. destruct g; [congruence | reflexivity]. Qed.

Lemma has_id_after_renew s : has_id (after_renew h s) = true.
Proof.
  unfold has_id, after_renew, renewed; cbn.
  apply truthy_string_nonempty, newId_nonempty.
Qed.

Lemma has_id_after_initialize s : has_id (after_initialize h s) = true.
Proof.
  unfold after_initialize.
  destruct (has_id (after_read h s)) eqn:E; [exact E | apply has_id_after_renew].
Qed.

Lemma has_id_after_check s : has_id s = true -> has_id (after_check h s) = true.
Proof.
  intros Hs. unfold after_check.
  destruct (_ || _); [apply has_id_after_renew |].
  destruct (cookieWriteDue _ _); exact Hs.
Qed.

Lemma has_id_after_update s : has_id (after_update h s) = true.
Proof.
  unfold after_update. apply has_id_after_check.
  destruct (has_id s) eqn:E; [exact E | apply has_id_after_initialize].
Qed.

End IdPopulated.

Lemma has_id_spec s :
  has_id s = true ->
  exists g, id (session_of s) = Some g /\ g <> "".
Proof.
  unfold has_id, session_of.
  destruct (id (automaticSession (self s))) as [[|c g]|]; simpl; try discriminate.
  intros _. eexists; split; [reflexivity | discriminate].
Qed.

(** C1.  Whatever the configuration, the manager and the answers of the
    cookie and storage backends, as long as the id generator issues
    non-empty ids: [update] returns, and the session id is then a non-empty
    string. *)
Theorem update_leaves_id_populated (h : Host) (s : machine) :
  (forall t, Util_newId h t <> "") ->
  exists s',
    update h s = (Returns tt, s') /\
    exists g, id (session_of s') = Some g /\ g <> "".
Proof.
  intros Hids. exists (after_update h s). split.
  - apply update_run.
  - apply has_id_spec, has_id_after_update, Hids.
Qed.

Lemma update_leaves_id_populated_witness :
  exists s',
    update (scripted_host (Some "|1000|1000") None false [5000000] ["s1"])
      (start None) = (Returns tt, s') /\
    exists g, id (session_of s') = Some g /\ g <> "".
Proof.
  apply (update_leaves_id_populated
           (scripted_host (Some "|1000|1000") None false [5000000] ["s1"])
           (start None)).
  intros t; simpl; rewrite scripted_single; discriminate.
Defined.

(** ** C2: renewal once the renewal window is exceeded *)

Lemma count_cons p e t :
  count p (e :: t) = if p e then S (count p t) else count p t.
Proof. unfold count; simpl; destruct (p e); reflexivity. Qed.




Lemma after_renew_facts h s :
  session_of (after_renew h s) = renewed h (calls s) /\
  config (self (after_renew h s)) = config (self s) /\
  cookie_writes (calls (after_renew h s)) = S (cookie_writes (calls s)) /\
  minted (calls (after_renew h s)) = S (minted (calls s)) /\
  In (cookie_write h (config (self s)) (renewed h (calls s)))
     (calls (after_renew h s)).
Proof.
  unfold after_renew, session_of, cookie_writes, minted, renew_trace; cbn [self calls].
  destruct (Util_canUseLocalStorage h _); repeat split;
    rewrite ?count_cons; cbn; auto.
Qed.



(** ** C3: cookie writes of a live session are throttled *)

Lemma cookieWriteDue_recent now m ts :
  cookieUpdatedTimestamp m = Some (Int ts) ->
  ts <> 0 -> now - ts <= cookieUpdateInterval ->
  cookieWriteDue now m = false.
Proof.
  unfold cookieWriteDue. intros -> Hts Hle. cbn [truthy_opt truthy_number num_of].
  rewrite num_gt_sub_Int.
  replace (ts =? 0) with false by (symmetry; apply Z.eqb_neq; exact Hts).
  replace (_ <? _) with false by (symmetry; apply Z.ltb_ge; lia).
  reflexivity.
Qed.

Lemma cookieWriteDue_stale now m :
  cookieUpdatedTimestamp m = None \/
  cookieUpdatedTimestamp m = Some (Int 0) \/
  (exists ts, cookieUpdatedTimestamp m = Some (Int ts) /\
              cookieUpdateInterval < now - ts) ->
  cookieWriteDue now m = true.
Proof.
  unfold cookieWriteDue. intros [-> | [-> | (ts & -> & Hlt)]]; try reflexivity.
  cbn [truthy_opt truthy_number num_of]. rewrite num_gt_sub_Int.
  replace (_ <? _) with true by (symmetry; apply Z.ltb_lt; lia).
  apply orb_true_r.
Qed.

Lemma after_update_live h s now :
  has_id s = true ->
  DateTimeUtils_Now h (calls s) = now ->
  acquisitionExpired now (self s) = false ->
  renewalExpired now (self s) = false ->
  after_update h s =
  if cookieWriteDue now (self s)
  then after_keepalive h now {| self := self s; calls := Call_Now :: calls s |}
  else {| self := self s; calls := Call_Now :: calls s |}.
Proof.
  intros Hid Hnow Ha Hr. unfold after_update, after_check.
  rewrite Hid, Hnow, Ha, Hr. reflexivity.
Qed.

(** The throttle as the code has it.  The session has an id and the clock reading
    [now] of this call is within both expiry windows.  If the timestamp of
    the last cookie write is a non-zero [ts] with
    [now - ts <= cookieUpdateInterval], [update] changes nothing in the
    manager and only reads the clock.  If no timestamp is recorded, or the
    recorded one is [0], or [now - ts > cookieUpdateInterval], [update] sets
    [renewalDate] to [now], leaves the id and the acquisition date alone and
    writes the cookie exactly once. *)
Theorem update_throttles_cookie_writes (h : Host) (s : machine) (now : Z) :
  has_id s = true ->
  DateTimeUtils_Now h (calls s) = now ->
  acquisitionExpired now (self s) = false ->
  renewalExpired now (self s) = false ->
  (forall ts,
     cookieUpdatedTimestamp (self s) = Some (Int ts) ->
     ts <> 0 -> now - ts <= cookieUpdateInterval ->
     update h s = (Returns tt, {| self := self s; calls := Call_Now :: calls s |}))
  /\
  (cookieUpdatedTimestamp (self s) = None \/
   cookieUpdatedTimestamp (self s) = Some (Int 0) \/
   (exists ts, cookieUpdatedTimestamp (self s) = Some (Int ts) /\
               cookieUpdateInterval < now - ts) ->
   exists s',
     update h s = (Returns tt, s') /\
     session_of s' = kept_alive now (session_of s) /\
     calls s' =
       Call_Now
       :: cookie_write h (config (self s)) (kept_alive now (session_of s))
       :: Call_Now :: calls s /\
     cookie_writes (calls s') = S (cookie_writes (calls s))).
Proof.
  intros Hid Hnow Ha Hr. split.
  - intros ts Hts Hnz Hle. rewrite update_run.
    rewrite (after_update_live h s now Hid Hnow Ha Hr).
    rewrite (cookieWriteDue_recent now (self s) ts Hts Hnz Hle). reflexivity.
  - intros Hdue. exists (after_update h s). split; [apply update_run |].
    rewrite (after_update_live h s now Hid Hnow Ha Hr).
    rewrite (cookieWriteDue_stale now (self s) Hdue).
    unfold after_keepalive, session_of, cookie_writes; cbn [self calls].
    repeat split.
Qed.

Lemma update_throttles_cookie_writes_witness :
  let h := scripted_host None None true [6000] ["s1"] in
  update h (live_machine (Some (Int 1000))) =
    (Returns tt,
     {| self := self (live_machine (Some (Int 1000))); calls := [Call_Now] |}).
Proof.
  intro h.
  destruct (update_throttles_cookie_writes h (live_machine (Some (Int 1000))) 6000
              eq_refl eq_refl eq_refl eq_refl) as [Hthrottled _].
  apply (Hthrottled 1000).
  - reflexivity.
  - discriminate.
  - vm_compute; discriminate.
Defined.

(** C3.  The code at the failing input: a cookie write recorded at clock
    reading [0].  A manager starts without cookie or storage entry and its
    first [update], at time [0], renews and records [0] as the time of the
    write; [!this.cookieUpdatedTimestamp] then counts that record as no
    record.  The second [update], ten milliseconds after the last write
    and within both windows, moves the renewal date and writes the cookie
    again, where C3 and the comment on the guard ("do not update the
    cookie more often than cookieUpdateInterval") have it write nothing. *)
Lemma update_throttle_counterexample :
  let h := scripted_host None None true [0; 0; 0; 0; 10] ["s1"] in
  let s1 := snd (update h (start None)) in
  let s2 := snd (update h s1) in
  has_id s1 = true /\
  cookieUpdatedTimestamp (self s1) = Some (Int 0) /\
  renewalDate (session_of s1) = Some (Int 0) /\
  DateTimeUtils_Now h (calls s1) = 10 /\
  acquisitionExpired 10 (self s1) = false /\
  renewalExpired 10 (self s1) = false /\
  10 - 0 <= cookieUpdateInterval /\
  fst (update h s1) = Returns tt /\
  renewalDate (session_of s2) = Some (Int 10) /\
  cookie_writes (calls s2) = S (cookie_writes (calls s1)).
Proof. vm_compute. repeat split; discriminate. Qed.

(** ** C4 and C10: a non-numeric date field *)

Lemma after_parse_malformed h s :
  after_parse h (split delimiter "abc|notanumber|2000") s =
  {| self := with_session (self s) malformed_parsed; calls := calls s |}.
Proof. reflexivity. Qed.

(** C4, as the code has it.  Parsing ["abc|notanumber|2000"] returns to the
    caller, sets the id to ["abc"], normalizes [acquisitionDate] to [0],
    reads [renewalDate] as [2000], and makes no call to the logger or to any
    other collaborator: no critical entry is produced. *)
Theorem malformed_payload_is_normalized_silently (h : Host) (s : machine) :
  initializeAutomaticSessionWithData h "abc|notanumber|2000" s =
  (Returns tt,
   {| self := with_session (self s) malformed_parsed; calls := calls s |}).
Proof.
  rewrite initializeAutomaticSessionWithData_run, after_parse_malformed.
  reflexivity.
Qed.

(** The claim as C4 states it asks for a critical log entry; parsing the
    payload in a new manager returns with [acquisitionDate = 0] and an empty
    trace. *)
Lemma malformed_payload_counterexample :
  let h := scripted_host None None true [5000] ["s1"] in
  let r := initializeAutomaticSessionWithData h "abc|notanumber|2000" (start None) in
  fst r = Returns tt /\
  acquisitionDate (session_of (snd r)) = Some (Int 0) /\
  existsb is_critical (calls (snd r)) = false /\
  calls (snd r) = [].
Proof. vm_compute. repeat split. Qed.


(** ** C6: the expiry of the cookie *)

Lemma cookieExpiry_min c a r :
  cookieExpiry c (Some (Int a)) (Some (Int r)) =
  setTime (Int (Z.min (a + config_sessionExpirationMs c)
                      (r + config_sessionRenewalMs c))).
Proof.
  unfold cookieExpiry; cbn [num_of num_add num_lt].
  destruct (Z.ltb_spec (a + config_sessionExpirationMs c)
                       (r + config_sessionRenewalMs c)).
  - rewrite Z.min_l by lia. reflexivity.
  - rewrite Z.min_r by lia. reflexivity.
Qed.

(** C6, as the code has it.  A cookie write with numeric acquisition date
    [a] and renewal date [r] passes to [Util.setCookie] the triple
    [id|a|r] followed by [;expires=] and the expiry: the UTC rendering of
    [min (a + sessionExpirationMs()) (r + sessionRenewalMs())] when that
    time is one a Date can hold (at most 8.64e15 ms from the epoch), and
    [Invalid Date] when it is not.  With the acquisition date unset the
    deadline is [r + sessionRenewalMs()], rendered in the same way.  The
    clock reading after the call is recorded as the time of the write. *)
Theorem cookie_expires_at_earlier_deadline
    (h : Host) (guid : option string) (a r : Z) (s : machine) :
  let c := config (self s) in
  let num := fun z : Z =>
    if Z.abs z <=? safeInteger then decimal z
    else Number_toString_other h (Int z) in
  let expires := fun d : Z =>
    if Z.abs d <=? maxTime then toUTCString_valid h d else "Invalid Date" in
  let guid_text := match guid with Some g => g | None => "" end in
  let both :=
    Call_setCookie (_storageNamePrefix c)
      ((guid_text ++ "|" ++ num a ++ "|" ++ num r)
         ++ ";expires="
         ++ expires (Z.min (a + config_sessionExpirationMs c)
                           (r + config_sessionRenewalMs c)))
      (config_cookieDomain c) in
  let renewal_only :=
    Call_setCookie (_storageNamePrefix c)
      ((guid_text ++ "||" ++ num r)
         ++ ";expires=" ++ expires (r + config_sessionRenewalMs c))
      (config_cookieDomain c) in
  setCookie h guid (Some (Int a)) (Some (Int r)) s =
    (Returns tt,
     {| self := with_timestamp (self s)
                  (Int (DateTimeUtils_Now h (both :: calls s)));
        calls := Call_Now :: both :: calls s |}) /\
  setCookie h guid None (Some (Int r)) s =
    (Returns tt,
     {| self := with_timestamp (self s)
                  (Int (DateTimeUtils_Now h (renewal_only :: calls s)));
        calls := Call_Now :: renewal_only :: calls s |}).
Proof.
  cbv zeta. split.
  - rewrite setCookie_run. unfold cookie_write; cbn [id acquisitionDate renewalDate].
    rewrite cookieExpiry_min.
    unfold toUTCString, setTime, TimeClip, join3, join_element, Number_toString;
      cbn [DateValue String.concat].
    destruct (Z.abs (Z.min _ _) <=? maxTime); destruct guid; reflexivity.
  - rewrite setCookie_run. unfold cookie_write; cbn [id acquisitionDate renewalDate].
    unfold cookieExpiry, toUTCString, setTime, TimeClip, join3, join_element,
      Number_toString; cbn [num_of num_add num_lt DateValue String.concat].
    destruct (Z.abs (r + _) <=? maxTime); destruct guid; reflexivity.
Qed.

(** The claim as C6 states it fails when the earlier deadline is past the
    range of a Date, and has nothing to say when the acquisition date is
    unset.  A manager whose cookie is
    ["abc|8640000000000000|8640000000000000"] is updated at that very
    time: the deadline is [8640000001800000], and the cookie is written
    with [expires=Invalid Date].  A manager whose cookie is ["abc"] is
    updated at [5000]: the cookie is written with an empty acquisition
    field and expires at the renewal deadline [1805000]. *)
Lemma cookie_expiry_counterexample :
  let h1 := scripted_host (Some "abc|8640000000000000|8640000000000000") None true
              [8640000000000000] ["s1"] in
  let h2 := scripted_host (Some "abc") None true [5000] ["s1"] in
  Z.min (8640000000000000 + acquisitionSpan) (8640000000000000 + renewalSpan)
    = 8640000001800000 /\
  toUTCString_valid h1 8640000001800000 = "8640000001800000" /\
  calls (snd (update h1 (start None))) =
    [Call_Now;
     Call_setCookie "ai_session"
       "abc|8640000000000000|8640000000000000;expires=Invalid Date" None;
     Call_Now; Call_getCookie "ai_session"] /\
  calls (snd (update h2 (start None))) =
    [Call_Now;
     Call_setCookie "ai_session" "abc||5000;expires=1805000" None;
     Call_Now; Call_getCookie "ai_session"].
Proof. vm_compute. repeat split. Qed.

(** ** C7: [backup] *)

(** C7.  Whatever the session holds (nothing at all, or an expired
    session), [backup] returns after a single call: [Util.setStorage] with
    the storage key and the text [id|acquisitionDate|renewalDate], in
    which an unset field is empty, an integer up to [2^53] is written in
    decimal digits and NaN as [NaN].  The manager (session, configuration,
    [cookieUpdatedTimestamp]) is unchanged and no cookie is written. *)
Theorem backup_writes_storage_only (h : Host) (s : machine) :
  let text := fun v : option number =>
    match v with
    | None => ""
    | Some NaN => "NaN"
    | Some (Infinity false) => "Infinity"
    | Some (Infinity true) => "-Infinity"
    | Some (Int z) =>
        if Z.abs z <=? safeInteger then decimal z
        else Number_toString_other h (Int z)
    | Some (Frac q) => Number_toString_other h (Frac q)
    end in
  let id_text := match id (session_of s) with Some g => g | None => "" end in
  backup h s =
    (Returns tt,
     {| self := self s;
        calls :=
          Call_setStorage (_storageNamePrefix (config (self s)))
            (id_text ++ "|" ++ text (acquisitionDate (session_of s))
               ++ "|" ++ text (renewalDate (session_of s)))
          :: calls s |}) /\
  cookie_writes (calls (snd (backup h s))) = cookie_writes (calls s).
Proof.
  cbv zeta. rewrite backup_run. split; [| reflexivity].
  unfold storage_write, session_of, join3, join_element, Number_toString;
    cbn [String.concat].
  destruct (id (automaticSession (self s)));
    destruct (acquisitionDate (automaticSession (self s))) as [[|[]|za|qa]|];
    destruct (renewalDate (automaticSession (self s))) as [[|[]|zr|qr]|];
    reflexivity.
Qed.

(** ** C9: a renewal date of zero *)

Lemma renewalExpired_zero now m :
  renewalDate (automaticSession m) = Some (Int 0) ->
  renewalExpired now m = (config_sessionRenewalMs (config m) <? now).
Proof.
  unfold renewalExpired. intros ->. cbn [num_of].
  rewrite num_gt_sub_Int. f_equal. lia.
Qed.

(** C9, as the code has it.  The session has an id and a renewal date of
    [0].  When the clock reading [now] of the next [update] exceeds
    [sessionRenewalMs()], the session is classified as renewal-expired and
    [update] ends as [renew] does once the clock has been read: the id is
    the one the generator issues in that call. *)
Theorem zero_renewal_date_forces_renewal (h : Host) (s : machine) (now : Z) :
  has_id s = true ->
  renewalDate (session_of s) = Some (Int 0) ->
  DateTimeUtils_Now h (calls s) = now ->
  config_sessionRenewalMs (config (self s)) < now ->
  renewalExpired now (self s) = true /\
  exists s',
    update h s = (Returns tt, s') /\
    renew h {| self := self s; calls := Call_Now :: calls s |} = (Returns tt, s') /\
    id (session_of s') = Some (Util_newId h (Call_Now :: Call_Now :: calls s)) /\
    minted (calls s') = S (minted (calls s)).
Proof.
  intros Hid Hr Hnow Hlt.
  assert (Hexp : renewalExpired now (self s) = true).
  { rewrite (renewalExpired_zero now (self s) Hr). apply Z.ltb_lt, Hlt. }
  split; [exact Hexp |].
  exists (after_update h s). split; [apply update_run |].
  unfold after_update, after_check. rewrite Hid, Hnow, Hexp, orb_true_r.
  split; [apply renew_run |].
  match goal with
  | |- context [after_renew h ?s1] =>
      destruct (after_renew_facts h s1) as (Hsess & _ & _ & Hmint & _)
  end.
  rewrite Hsess, Hmint. unfold minted. cbn [calls]. rewrite count_cons.
  split; reflexivity.
Qed.

Lemma zero_renewal_date_forces_renewal_witness :
  let h := scripted_host None None true [1700000000000] ["s1"] in
  let s := snd (initializeAutomaticSessionWithData h "abc|1699999999000|0"
                  (start None)) in
  renewalExpired 1700000000000 (self s) = true /\
  exists s',
    update h s = (Returns tt, s') /\
    renew h {| self := self s; calls := Call_Now :: calls s |} = (Returns tt, s') /\
    id (session_of s') = Some (Util_newId h (Call_Now :: Call_Now :: calls s)) /\
    minted (calls s') = S (minted (calls s)).
Proof.
  intros h s.
  apply (zero_renewal_date_forces_renewal h s 1700000000000);
    reflexivity.
Defined.

(** The claim as C9 states it, for every [now], fails when [now] does not
    exceed the renewal window.  With [sessionRenewalMs] configured as
    [10^13] ms, the cookie ["abc|1699999999000|0"] parses to an id and a
    renewal date of [0]; [update] at [now = 1700000000000] finds no window
    exceeded, keeps the id ["abc"] and mints nothing. *)
Lemma zero_renewal_date_counterexample :
  let h := scripted_host None None true [1700000000000] ["s1"] in
  let s := snd (initializeAutomaticSessionWithData h "abc|1699999999000|0"
                  (start (Some long_renewal))) in
  let s' := snd (update h s) in
  id (session_of s) = Some "abc" /\
  renewalDate (session_of s) = Some (Int 0) /\
  DateTimeUtils_Now h (calls s) = 1700000000000 /\
  renewalExpired 1700000000000 (self s) = false /\
  acquisitionExpired 1700000000000 (self s) = false /\
  fst (update h s) = Returns tt /\
  id (session_of s') = Some "abc" /\
  minted (calls s') = 0%nat.
Proof. vm_compute. repeat split. Qed.

(** ** C8: which fields of the session are set *)

Section FieldsSet.

Variable h : Host.

Lemma split_nonempty sep s : split sep s <> [].
Proof.
  destruct s as [|c rest]; simpl; [discriminate |].
  destruct (Ascii.eqb c sep); [discriminate |].
  destruct (split sep rest); discriminate.
Qed.

Lemma id_set_after_parse d s :
  is_set (id (session_of (after_parse h (split delimiter d) s))) = true.
Proof.
  unfold after_parse, session_of, parsed; cbn.
  destruct (split delimiter d) eqn:E; [| reflexivity].
  exfalso; exact (split_nonempty _ _ E).
Qed.

Lemma populated_after_parse params s :
  populated (session_of s) -> populated (session_of (after_parse h params s)).
Proof.
  unfold populated, after_parse, session_of, parsed;
    cbn [self automaticSession with_session id acquisitionDate renewalDate].
  intros (Hi & Ha & Hr).
  destruct (nth_error params 0), (nth_error params 1), (nth_error params 2);
    repeat split; assumption || reflexivity.
Qed.

Lemma populated_after_renew s : populated (session_of (after_renew h s)).
Proof. repeat split. Qed.

Lemma id_set_after_read s :
  dates_imply_id (session_of s) ->
  dates_imply_id (session_of (after_read h s)).
Proof.
  intros Hs. unfold after_read.
  destruct (Util_getCookie h _ _) as [[|c rest]|];
    try (intros _; apply id_set_after_parse);
    destruct (Util_getStorage h _ _) as [[|c' rest']|];
    try (intros _; apply id_set_after_parse); exact Hs.
Qed.

Lemma populated_after_read s :
  populated (session_of s) -> populated (session_of (after_read h s)).
Proof.
  intros Hs. unfold after_read.
  destruct (Util_getCookie h _ _) as [[|c rest]|];
    try (apply populated_after_parse; exact Hs);
    destruct (Util_getStorage h _ _) as [[|c' rest']|];
    try (apply populated_after_parse; exact Hs); exact Hs.
Qed.

Lemma populated_dates_imply_id a : populated a -> dates_imply_id a.
Proof. intros (Hi & _) _. exact Hi. Qed.

Lemma has_id_is_set s : has_id s = true -> is_set (id (session_of s)) = true.
Proof.
  unfold has_id, session_of.
  destruct (id (automaticSession (self s))); [reflexivity | discriminate].
Qed.

Lemma id_set_after_initialize s :
  is_set (id (session_of (after_initialize h s))) = true.
Proof.
  unfold after_initialize.
  destruct (has_id (after_read h s)) eqn:E;
    [apply has_id_is_set, E | reflexivity].
Qed.

Lemma populated_after_initialize s :
  populated (session_of s) -> populated (session_of (after_initialize h s)).
Proof.
  intros Hs. unfold after_initialize.
  destruct (has_id (after_read h s));
    [apply populated_after_read, Hs | apply populated_after_renew].
Qed.

Lemma fields_after_check s :
  is_set (id (session_of s)) = true ->
  is_set (id (session_of (after_check h s))) = true /\
  (populated (session_of s) -> populated (session_of (after_check h s))).
Proof.
  intros Hid. unfold after_check.
  destruct (_ || _).
  - split; intros; [reflexivity | apply populated_after_renew].
  - destruct (cookieWriteDue _ _).
    + split; [exact Hid |].
      intros (Hi & Ha & _). repeat split; assumption.
    + split; [exact Hid | trivial].
Qed.

Lemma fields_after_update s :
  is_set (id (session_of (after_update h s))) = true /\
  (populated (session_of s) -> populated (session_of (after_update h s))).
Proof.
  unfold after_update.
  destruct (has_id s) eqn:E.
  - apply fields_after_check, has_id_is_set, E.
  - destruct (fields_after_check (after_initialize h s)
                (id_set_after_initialize s)) as [Hi Hp].
    split; [exact Hi |].
    intros Hs. apply Hp, populated_after_initialize, Hs.
Qed.

(** Every operation returns; it keeps "a date is set only if the id is
    set"; it keeps a fully populated session fully populated. *)
Lemma run_fields o s :
  dates_imply_id (session_of s) ->
  exists s',
    run h o s = (Returns tt, s') /\
    dates_imply_id (session_of s') /\
    (populated (session_of s) -> populated (session_of s')).
Proof.
  intros Hs. destruct o as [| | | |d]; cbn [run].
  - exists (after_update h s). split; [apply update_run |].
    destruct (fields_after_update s) as [Hi Hp].
    split; [intros _; exact Hi | exact Hp].
  - eexists. split; [apply backup_run |]. split; [exact Hs | trivial].
  - exists (after_renew h s). split; [apply renew_run |].
    split; [apply populated_dates_imply_id |]; intros; apply populated_after_renew.
  - exists (after_initialize h s). split; [apply initializeAutomaticSession_run |].
    split; [intros _; apply id_set_after_initialize
           | apply populated_after_initialize].
  - exists (after_parse h (split delimiter d) s).
    split; [apply initializeAutomaticSessionWithData_run |].
    split; [intros _; apply id_set_after_parse | apply populated_after_parse].
Qed.

Lemma reachable_dates_imply_id s :
  reachable h s -> dates_imply_id (session_of s).
Proof.
  induction 1 as [cfg t | o s s' _ IH Hrun].
  - intros [H | H]; discriminate H.
  - destruct (run_fields o s IH) as (s'' & Hrun' & Hinv & _).
    rewrite Hrun in Hrun'. injection Hrun' as <-. exact Hinv.
Qed.

End FieldsSet.

Lemma populated_id_iff_dates a : populated a -> id_iff_dates a.
Proof. intros (Hi & Ha & Hr). split; intros; [split |]; assumption. Qed.

(** C8, as the code has it.  From a session in which a date is set only if
    the id is set, every operation (update, backup, renew, initialization,
    parsing of any payload) returns and leaves such a session; a session
    with all three fields set keeps all three set, and then the id is set
    if and only if both dates are; [renew] sets all three.  Parsing a
    payload sets the id to its first field; a payload of one field leaves
    the acquisition date as it was, and a payload of fewer than three
    fields leaves the renewal date as it was.  (The converse, "id set only
    if both dates are set", is not kept: see the counterexample.) *)
Theorem fields_set_invariant (h : Host) (o : operation) (s : machine) :
  dates_imply_id (session_of s) ->
  exists s',
    run h o s = (Returns tt, s') /\
    dates_imply_id (session_of s') /\
    (populated (session_of s) ->
       populated (session_of s') /\ id_iff_dates (session_of s')) /\
    (o = Do_renew -> populated (session_of s')) /\
    (forall d, o = Do_initializeAutomaticSessionWithData d ->
       (exists p0 rest,
          split delimiter d = p0 :: rest /\ id (session_of s') = Some p0) /\
       ((List.length (split delimiter d) <= 1)%nat ->
        acquisitionDate (session_of s') = acquisitionDate (session_of s)) /\
       ((List.length (split delimiter d) <= 2)%nat ->
        renewalDate (session_of s') = renewalDate (session_of s))).
Proof.
  intros Hs. destruct (run_fields h o s Hs) as (s' & Hrun & Hinv & Hpop).
  exists s'. split; [exact Hrun |]. split; [exact Hinv |]. split; [| split].
  - intros Hp. split; [apply Hpop, Hp | apply populated_id_iff_dates, Hpop, Hp].
  - intros ->. cbn [run] in Hrun. rewrite renew_run in Hrun.
    injection Hrun as <-. apply populated_after_renew.
  - intros d ->. cbn [run] in Hrun.
    rewrite initializeAutomaticSessionWithData_run in Hrun.
    injection Hrun as <-.
    unfold after_parse, session_of, parsed;
      cbn [self automaticSession with_session id acquisitionDate renewalDate].
    split; [| split].
    + pose proof (split_nonempty delimiter d) as Hne.
      destruct (split delimiter d) as [|p0 rest]; [congruence |].
      exists p0, rest. split; reflexivity.
    + intros Hlen. apply nth_error_None in Hlen. rewrite Hlen. reflexivity.
    + intros Hlen. apply nth_error_None in Hlen. rewrite Hlen. reflexivity.
Qed.

(** Three runs: [renew] on a fully populated session, which stays fully
    populated; the parse of ["abc"] in a new manager, which sets the id and
    leaves both dates unset; the parse of ["abc|7"] over a populated
    session, which keeps the renewal date. *)
Lemma fields_set_invariant_witness :
  let h := scripted_host None None true [5000] ["s1"] in
  (exists s',
     run h Do_renew sample_machine = (Returns tt, s') /\
     populated (session_of s') /\ id_iff_dates (session_of s')) /\
  (exists s',
     run h (Do_initializeAutomaticSessionWithData "abc") (start None)
       = (Returns tt, s') /\
     dates_imply_id (session_of s') /\
     id (session_of s') = Some "abc" /\
     acquisitionDate (session_of s') = None /\
     renewalDate (session_of s') = None) /\
  (exists s',
     run h (Do_initializeAutomaticSessionWithData "abc|7") sample_machine
       = (Returns tt, s') /\
     populated (session_of s') /\
     renewalDate (session_of s') = Some (Int 1700000060000)).
Proof.
  intro h.
  assert (Hnew : dates_imply_id (session_of (start None)))
    by (intros [H | H]; discriminate H).
  assert (Hsample : dates_imply_id (session_of sample_machine))
    by (intros _; reflexivity).
  assert (Hpop : populated (session_of sample_machine))
    by (repeat split).
  split; [| split].
  - destruct (fields_set_invariant h Do_renew sample_machine Hsample)
      as (s' & Hrun & _ & Hkeep & _).
    exists s'. split; [exact Hrun | exact (Hkeep Hpop)].
  - destruct (fields_set_invariant h (Do_initializeAutomaticSessionWithData "abc")
                (start None) Hnew) as (s' & Hrun & Hinv & _ & _ & Hparse).
    destruct (Hparse "abc" eq_refl) as ((p0 & rest & Hsplit & Hid) & Ha & Hr).
    exists s'. split; [exact Hrun |]. split; [exact Hinv |].
    injection Hsplit as <- <-.
    split; [exact Hid |].
    split; [apply Ha | apply Hr]; simpl; lia.
  - destruct (fields_set_invariant h (Do_initializeAutomaticSessionWithData "abc|7")
                sample_machine Hsample) as (s' & Hrun & _ & Hkeep & _ & Hparse).
    destruct (Hparse "abc|7" eq_refl) as (_ & _ & Hr).
    exists s'. split; [exact Hrun |]. split; [apply (Hkeep Hpop) |].
    apply Hr. simpl. lia.
Defined.

(** The invariant as C8 states it holds in a new manager and fails after
    parsing the payload ["abc"], which has no date fields; [update] on a new
    manager whose cookie is ["abc"] ends with the id and the renewal date
    set and the acquisition date unset. *)
Lemma id_iff_dates_counterexample :
  let h := scripted_host (Some "abc") None true [5000] ["s1"] in
  let s1 := snd (initializeAutomaticSessionWithData h "abc" (start None)) in
  let s2 := snd (update h (start None)) in
  id_iff_dates (session_of (start None)) /\
  fst (initializeAutomaticSessionWithData h "abc" (start None)) = Returns tt /\
  session_of s1 =
    {| id := Some "abc"; acquisitionDate := None; renewalDate := None |} /\
  ~ id_iff_dates (session_of s1) /\
  fst (update h (start None)) = Returns tt /\
  session_of s2 =
    {| id := Some "abc"; acquisitionDate := None;
       renewalDate := Some (Int 5000) |} /\
  ~ id_iff_dates (session_of s2).
Proof.
  intros h s1 s2.
  assert (H1 : ~ id_iff_dates (session_of s1)).
  { intros [H _]. destruct (H eq_refl) as [Ha _]. discriminate Ha. }
  assert (H2 : ~ id_iff_dates (session_of s2)).
  { intros [H _]. destruct (H eq_refl) as [Ha _]. discriminate Ha. }
  assert (H0 : id_iff_dates (session_of (start None))).
  { split; [intros H | intros [H _]]; discriminate H. }
  repeat split; solve [reflexivity | assumption | apply H0].
Qed.

(** ** C5: the wire format round trip *)

Lemma all_chars_digits (P : ascii -> bool) d :
  P "0"%char = true -> P "1"%char = true -> P "2"%char = true ->
  P "3"%char = true -> P "4"%char = true -> P "5"%char = true ->
  P "6"%char = true -> P "7"%char = true -> P "8"%char = true ->
  P "9"%char = true ->
  all_chars P (NilEmpty.string_of_uint d) = true.
Proof.
  intros H0 H1 H2 H3 H4 H5 H6 H7 H8 H9.
  induction d; simpl; rewrite ?IHd, ?H0, ?H1, ?H2, ?H3, ?H4, ?H5, ?H6, ?H7, ?H8, ?H9;
    reflexivity.
Qed.

Lemma decimal_pos p : decimal (Zpos p) = NilEmpty.string_of_uint (Pos.to_uint p).
Proof.
  unfold decimal; simpl.
  pose proof (Unsigned.to_uint_nonnil p) as Hn.
  destruct (Pos.to_uint p); [contradiction | reflexivity ..].
Qed.

Lemma decimal_pos_chars (P : ascii -> bool) p :
  (forall c, In c (list_ascii_of_string "0123456789") -> P c = true) ->
  all_chars P (decimal (Zpos p)) = true.
Proof.
  intros HP. rewrite decimal_pos.
  apply all_chars_digits; apply HP; simpl; tauto.
Qed.

Lemma split_field sep g rest :
  all_chars (fun c => negb (Ascii.eqb c sep)) g = true ->
  split sep (g ++ String sep rest) = g :: split sep rest.
Proof.
  induction g as [|c g IH]; simpl.
  - intros _. rewrite Ascii.eqb_refl. reflexivity.
  - intros H. apply andb_true_iff in H as [Hc Hg].
    apply negb_true_iff in Hc. rewrite Hc, (IH Hg). reflexivity.
Qed.

Lemma split_last sep g :
  all_chars (fun c => negb (Ascii.eqb c sep)) g = true ->
  split sep g = [g].
Proof.
  induction g as [|c g IH]; simpl.
  - reflexivity.
  - intros H. apply andb_true_iff in H as [Hc Hg].
    apply negb_true_iff in Hc. rewrite Hc, (IH Hg). reflexivity.
Qed.

Lemma split_triple g x y :
  all_chars not_delimiter g = true ->
  all_chars not_delimiter x = true ->
  all_chars not_delimiter y = true ->
  split delimiter (String.concat "|" [g; x; y]) = [g; x; y].
Proof.
  intros Hg Hx Hy. cbn [String.concat].
  change (g ++ "|" ++ x ++ "|" ++ y)
    with (g ++ String delimiter (x ++ String delimiter y)).
  rewrite (split_field delimiter g _ Hg), (split_field delimiter x _ Hx),
    (split_last delimiter y Hy).
  reflexivity.
Qed.

Lemma integer_literal_pos p : integer_literal (decimal (Zpos p)) = Some (Zpos p).
Proof.
  assert (Hd : digits_value (decimal (Zpos p)) = Some (Zpos p)).
  { unfold digits_value, decimal; cbn [Z.to_int NilZero.string_of_int].
    rewrite NilZero.usu by apply Unsigned.to_uint_nonnil.
    cbn [option_map]. unfold Z.of_uint. rewrite Unsigned.of_to. reflexivity. }
  pose proof (decimal_pos_chars
                (fun c => negb (Ascii.eqb c "-") && negb (Ascii.eqb c "+")) p) as Hs.
  unfold integer_literal.
  destruct (decimal (Zpos p)) as [|c rest]; [exact Hd |].
  assert (Hc : negb (Ascii.eqb c "-") && negb (Ascii.eqb c "+") = true).
  { cbn [all_chars] in Hs. apply andb_true_iff in Hs as [Hc _]; [exact Hc |].
    intros c' Hin; simpl in Hin.
    repeat (destruct Hin as [<- | Hin]; [reflexivity |]). contradiction. }
  apply andb_true_iff in Hc as [Hm Hp].
  apply negb_true_iff in Hm, Hp.
  apply Ascii.eqb_neq in Hm, Hp.
  destruct c as [[] [] [] [] [] [] [] []]; try exact Hd; congruence.
Qed.

Lemma StringToNumber_decimal h z :
  0 < z <= safeInteger -> StringToNumber h (decimal z) = Int z.
Proof.
  intros [Hpos Hle]. destruct z as [|p|p]; try lia.
  unfold StringToNumber.
  rewrite decimal_pos_chars, integer_literal_pos.
  - cbn [negb]. replace (Z.abs (Z.pos p) <=? safeInteger) with true; [reflexivity |].
    symmetry. apply Z.leb_le. lia.
  - intros c Hin; simpl in Hin.
    repeat (destruct Hin as [<- | Hin]; [reflexivity |]). contradiction.
Qed.

Lemma maxTime_safe : maxTime < safeInteger.
Proof. reflexivity. Qed.

Lemma field_time_decimal h z :
  0 < z <= maxTime -> field_time h (decimal z) = Int z.
Proof.
  intros [Hpos Hle]. pose proof maxTime_safe.
  unfold field_time. rewrite StringToNumber_decimal by lia.
  unfold TimeClip. replace (Z.abs z <=? maxTime) with true
    by (symmetry; apply Z.leb_le; lia).
  unfold positive_or_zero, num_gt, num_lt.
  replace (0 <? z) with true by (symmetry; apply Z.ltb_lt; lia).
  reflexivity.
Qed.

Lemma Number_toString_time h z :
  0 < z <= maxTime -> Number_toString h (Int z) = decimal z.
Proof.
  intros [Hpos Hle]. unfold Number_toString.
  replace (Z.abs z <=? safeInteger) with true; [reflexivity |].
  symmetry. apply Z.leb_le. pose proof maxTime_safe. lia.
Qed.

Lemma decimal_no_delimiter z : 0 < z -> all_chars not_delimiter (decimal z) = true.
Proof.
  intros Hpos. destruct z as [|p|p]; try lia.
  apply decimal_pos_chars.
  intros c Hin; simpl in Hin.
  repeat (destruct Hin as [<- | Hin]; [reflexivity |]). contradiction.
Qed.

Lemma join3_time h g a r :
  0 < a <= maxTime -> 0 < r <= maxTime ->
  join3 h (Some g) (Some (Int a)) (Some (Int r))
  = String.concat "|" [g; decimal a; decimal r].
Proof.
  intros Ha Hr. unfold join3, join_element.
  rewrite !Number_toString_time by assumption. reflexivity.
Qed.

(** C5, as the code has it.  Take a session whose id has no delimiter and
    whose acquisition and renewal dates are positive integers not above
    8.64e15, the largest time value of a Date.  [backup] hands to
    [Util.setStorage] the triple [id|acquisitionDate|renewalDate], and
    parsing that triple, in any machine, returns with the same id,
    acquisition date and renewal date and makes no call. *)
Theorem serialized_session_parses_back
    (h : Host) (g : string) (a r : Z) (s s0 : machine) :
  all_chars not_delimiter g = true ->
  0 < a <= maxTime ->
  0 < r <= maxTime ->
  session_of s =
    {| id := Some g; acquisitionDate := Some (Int a);
       renewalDate := Some (Int r) |} ->
  exists payload,
    backup h s =
      (Returns tt,
       {| self := self s;
          calls := Call_setStorage (_storageNamePrefix (config (self s))) payload
                   :: calls s |}) /\
    payload = String.concat "|" [g; decimal a; decimal r] /\
    initializeAutomaticSessionWithData h payload s0 =
      (Returns tt,
       {| self := with_session (self s0) (session_of s); calls := calls s0 |}).
Proof.
  intros Hg Ha Hr Hs.
  exists (String.concat "|" [g; decimal a; decimal r]).
  split; [| split; [reflexivity |]].
  - rewrite backup_run. unfold storage_write.
    unfold session_of in Hs. rewrite Hs. cbn [id acquisitionDate renewalDate].
    rewrite join3_time by assumption. reflexivity.
  - rewrite initializeAutomaticSessionWithData_run.
    rewrite split_triple;
      [| exact Hg | apply decimal_no_delimiter; lia | apply decimal_no_delimiter; lia].
    unfold after_parse, parsed. cbn [nth_error].
    rewrite !field_time_decimal by assumption.
    rewrite Hs. cbn [renewalDate is_zero].
    destruct r as [|p|p]; try lia. reflexivity.
Qed.

Lemma serialized_session_parses_back_witness :
  let h := scripted_host None None true [5000] ["s1"] in
  exists payload,
    backup h sample_machine =
      (Returns tt,
       {| self := self sample_machine;
          calls := [Call_setStorage "ai_session" payload] |}) /\
    payload = "abc|1700000000000|1700000060000" /\
    initializeAutomaticSessionWithData h payload (start None) =
      (Returns tt,
       {| self := with_session (self (start None)) (session_of sample_machine);
          calls := [] |}).
Proof.
  intro h.
  apply (serialized_session_parses_back h "abc" 1700000000000 1700000060000
           sample_machine (start None)).
  - reflexivity.
  - unfold maxTime; lia.
  - unfold maxTime; lia.
  - reflexivity.
Defined.

(** The claim as C5 states it, for all positive integers, fails above the
    range of a Date: the acquisition date [8640000000000001] is written as
    its decimal digits and read back as [0]. *)
Lemma round_trip_counterexample :
  let h := scripted_host None None true [5000] ["s1"] in
  let payload :=
    join3 h (Some "abc") (Some (Int 8640000000000001)) (Some (Int 1000)) in
  let r := initializeAutomaticSessionWithData h payload (start None) in
  payload = "abc|8640000000000001|1000" /\
  fst r = Returns tt /\
  session_of (snd r) =
    {| id := Some "abc"; acquisitionDate := Some (Int 0);
       renewalDate := Some (Int 1000) |} /\
  acquisitionDate (session_of (snd r)) <> Some (Int 8640000000000001).
Proof. vm_compute. repeat split. discriminate. Qed.

(** ** C10: the try block always completes *)


(** * Further properties of the session manager *)

(** ** The calls an operation makes *)

Lemma appends_refl P t : appends P t t.
Proof. exists []. split; reflexivity. Qed.

Lemma appends_cons P e t t' :
  P e = true -> appends P t t' -> appends P t (e :: t').
Proof.
  intros He (d & -> & Hd). exists (e :: d). split; [reflexivity |].
  cbn [forallb]. rewrite He, Hd. reflexivity.
Qed.

Lemma appends_trans P t t' t'' :
  appends P t t' -> appends P t' t'' -> appends P t t''.
Proof.
  intros (d & -> & Hd) (d' & -> & Hd'). exists (d' ++ d)%list. split.
  - apply app_assoc.
  - rewrite forallb_app, Hd, Hd'. reflexivity.
Qed.

Lemma count_app p (d t : trace) : count p (d ++ t)%list = (count p d + count p t)%nat.
Proof. unfold count. rewrite filter_app, length_app. reflexivity. Qed.

Lemma count_none p q (d : trace) :
  (forall e, q e = true -> p e = false) ->
  forallb q d = true -> count p d = 0%nat.
Proof.
  intros Hpq. induction d as [|e d IH]; cbn [forallb]; [reflexivity |].
  intros H. apply andb_true_iff in H as [He Hd].
  rewrite count_cons, (Hpq e He). apply IH, Hd.
Qed.

Section Calls.

Variable h : Host.
Variable P : event -> bool.

Lemma config_after_renew s : config (self (after_renew h s)) = config (self s).
Proof. reflexivity. Qed.

Lemma config_after_parse params s :
  config (self (after_parse h params s)) = config (self s).
Proof. reflexivity. Qed.

Lemma config_after_read s : config (self (after_read h s)) = config (self s).
Proof.
  unfold after_read.
  destruct (Util_getCookie h _ _) as [[|c rest]|]; try reflexivity;
    destruct (Util_getStorage h _ _) as [[|c' rest']|]; reflexivity.
Qed.

Lemma config_after_initialize s :
  config (self (after_initialize h s)) = config (self s).
Proof.
  unfold after_initialize. destruct (has_id _);
    [| rewrite config_after_renew]; apply config_after_read.
Qed.

Lemma appends_after_renew s :
  admits_update h (config (self s)) P ->
  appends P (calls s) (calls (after_renew h s)).
Proof.
  intros (HN & HI & HC & _ & _ & HW & _ & Hcw).
  unfold after_renew, renew_trace; cbn [calls].
  destruct (Util_canUseLocalStorage h _);
    repeat (apply appends_cons; [solve [assumption | apply Hcw] |]);
    apply appends_refl.
Qed.

Lemma appends_after_parse params s :
  admits_update h (config (self s)) P ->
  appends P (calls s) (calls (after_parse h params s)).
Proof.
  intros (_ & _ & _ & _ & _ & _ & HZ & _).
  unfold after_parse; cbn [calls].
  destruct (is_zero _); [apply appends_cons; [exact HZ |] |]; apply appends_refl.
Qed.

Lemma appends_after_read s :
  admits_update h (config (self s)) P ->
  appends P (calls s) (calls (after_read h s)).
Proof.
  intros HP. pose proof HP as (_ & _ & _ & HGC & HGS & _).
  unfold after_read.
  destruct (Util_getCookie h _ _) as [[|c rest]|];
    try (eapply appends_trans; [| apply appends_after_parse; exact HP];
         cbn [calls]; apply appends_cons; [exact HGC | apply appends_refl]);
    destruct (Util_getStorage h _ _) as [[|c' rest']|];
    try (eapply appends_trans; [| apply appends_after_parse; exact HP]);
    cbn [calls];
    (apply appends_cons; [exact HGS |]); (apply appends_cons; [exact HGC |]);
    apply appends_refl.
Qed.

Lemma appends_after_initialize s :
  admits_update h (config (self s)) P ->
  appends P (calls s) (calls (after_initialize h s)).
Proof.
  intros HP. unfold after_initialize. destruct (has_id _).
  - apply appends_after_read, HP.
  - eapply appends_trans; [apply appends_after_read, HP |].
    apply appends_after_renew. rewrite config_after_read. exact HP.
Qed.

Lemma appends_after_check s :
  admits_update h (config (self s)) P ->
  appends P (calls s) (calls (after_check h s)).
Proof.
  intros HP. pose proof HP as (HN & _ & _ & _ & _ & _ & _ & Hcw).
  unfold after_check.
  destruct (_ || _).
  - eapply appends_trans; [| apply appends_after_renew; exact HP].
    cbn [calls]. apply appends_cons; [exact HN | apply appends_refl].
  - destruct (cookieWriteDue _ _); unfold after_keepalive; cbn [calls self];
      repeat (apply appends_cons; [solve [assumption | apply Hcw] |]);
      apply appends_refl.
Qed.

Lemma appends_after_update s :
  admits_update h (config (self s)) P ->
  appends P (calls s) (calls (after_update h s)).
Proof.
  intros HP. unfold after_update. destruct (has_id s).
  - apply appends_after_check, HP.
  - eapply appends_trans; [apply appends_after_initialize, HP |].
    apply appends_after_check. rewrite config_after_initialize. exact HP.
Qed.

End Calls.

Lemma admits_not_storage_write_nor_critical h c :
  admits_update h c not_storage_write_nor_critical.
Proof. repeat split. Qed.

Lemma admits_uses_key h c : admits_update h c (uses_key (_storageNamePrefix c)).
Proof.
  unfold admits_update, cookie_write, uses_key.
  rewrite String.eqb_refl. repeat split.
Qed.

(** [update] never writes to local storage and never logs a critical
    entry: every call it adds to the trace is neither. *)
Theorem update_never_writes_storage (h : Host) (s : machine) :
  exists s',
    update h s = (Returns tt, s') /\
    appends not_storage_write_nor_critical (calls s) (calls s') /\
    storage_writes (calls s') = storage_writes (calls s) /\
    count is_critical (calls s') = count is_critical (calls s).
Proof.
  exists (after_update h s). split; [apply update_run |].
  pose proof (appends_after_update h _ s
                (admits_not_storage_write_nor_critical h _)) as Happ.
  split; [exact Happ |].
  destruct Happ as (d & -> & Hd). unfold storage_writes.
  rewrite !count_app.
  rewrite (count_none is_Call_setStorage not_storage_write_nor_critical d),
          (count_none is_critical not_storage_write_nor_critical d); auto.
  - intros e He. apply andb_true_iff in He as [_ He].
    apply negb_true_iff, He.
  - intros e He. apply andb_true_iff in He as [He _].
    apply negb_true_iff, He.
Qed.

(** Every call that [update] or [backup] makes to the cookie or to local
    storage names the one key of the manager, [_storageNamePrefix]. *)
Theorem backend_calls_use_the_storage_key (h : Host) (s : machine) :
  (exists s',
     update h s = (Returns tt, s') /\
     appends (uses_key (_storageNamePrefix (config (self s)))) (calls s) (calls s')) /\
  (exists s',
     backup h s = (Returns tt, s') /\
     appends (uses_key (_storageNamePrefix (config (self s)))) (calls s) (calls s')).
Proof.
  split.
  - exists (after_update h s). split; [apply update_run |].
    apply appends_after_update, admits_uses_key.
  - eexists. split; [apply backup_run |]. cbn [calls].
    apply appends_cons; [| apply appends_refl].
    unfold storage_write, uses_key. apply String.eqb_refl.
Qed.

(** ** The storage key *)

Lemma _storageNamePrefix_effective c :
  _storageNamePrefix c = cookieNameConst ++ effective_prefix c.
Proof.
  unfold _storageNamePrefix, effective_prefix.
  destruct (config_namePrefix c) as [[|a p]|]; reflexivity.
Qed.

(** The key is ["ai_session"] followed by the name prefix in effect, and two
    configurations share a key exactly when their prefixes in effect are
    equal: distinct non-empty prefixes never collide, while an empty prefix
    collides with an absent one. *)
Theorem storage_keys_agree_iff_prefixes_agree (c1 c2 : SessionConfig) :
  _storageNamePrefix c1 = "ai_session" ++ effective_prefix c1 /\
  (_storageNamePrefix c1 = _storageNamePrefix c2 <->
   effective_prefix c1 = effective_prefix c2).
Proof.
  split; [apply _storageNamePrefix_effective |].
  rewrite !_storageNamePrefix_effective. split.
  - unfold cookieNameConst. cbn [append]. intros H. injection H as H. exact H.
  - intros ->. reflexivity.
Qed.

(** ** What every operation keeps *)

Lemma framed_refl s : framed s s.
Proof. repeat split; auto. Qed.

Lemma framed_trans s s' s'' : framed s s' -> framed s' s'' -> framed s s''.
Proof.
  intros (Hc & Hle & Hts) (Hc' & Hle' & Hts'). repeat split.
  - congruence.
  - lia.
  - intros Heq. rewrite Hts' by lia. apply Hts. lia.
Qed.

Lemma framed_same_manager s e :
  framed s {| self := self s; calls := e :: calls s |}.
Proof.
  split; [reflexivity |]. cbn [self calls]. unfold cookie_writes.
  rewrite count_cons. split; [destruct (is_Call_setCookie e); lia | reflexivity].
Qed.

Section Frames.

Variable h : Host.

Lemma framed_after_renew s : framed s (after_renew h s).
Proof.
  destruct (after_renew_facts h s) as (_ & Hc & Hcw & _).
  split; [exact Hc |]. split; [| intros Heq]; lia.
Qed.

Lemma framed_after_parse params s : framed s (after_parse h params s).
Proof.
  assert (Hcw : cookie_writes (calls (after_parse h params s))
                = cookie_writes (calls s)).
  { unfold after_parse, cookie_writes; cbn [calls].
    destruct (is_zero _); [rewrite count_cons |]; reflexivity. }
  split; [reflexivity |]. split; [lia | reflexivity].
Qed.

Lemma framed_after_read s : framed s (after_read h s).
Proof.
  unfold after_read.
  destruct (Util_getCookie h _ _) as [[|c rest]|];
    try (eapply framed_trans; [| apply framed_after_parse];
         apply framed_same_manager);
    destruct (Util_getStorage h _ _) as [[|c' rest']|];
    try (eapply framed_trans; [| apply framed_after_parse]);
    (eapply framed_trans; [apply framed_same_manager |]);
    apply (framed_same_manager {| self := self s; calls := _ :: calls s |}).
Qed.

Lemma framed_after_initialize s : framed s (after_initialize h s).
Proof.
  unfold after_initialize. destruct (has_id _).
  - apply framed_after_read.
  - eapply framed_trans; [apply framed_after_read | apply framed_after_renew].
Qed.

Lemma framed_after_keepalive now s : framed s (after_keepalive h now s).
Proof.
  unfold after_keepalive, framed, cookie_writes;
    cbn [self calls config with_timestamp with_session].
  rewrite !count_cons. cbn [is_Call_setCookie cookie_write is_Call_Now].
  split; [reflexivity |]. split; [| intros Heq]; lia.
Qed.

Lemma framed_after_check s : framed s (after_check h s).
Proof.
  unfold after_check.
  destruct (_ || _); [| destruct (cookieWriteDue _ _)].
  - eapply framed_trans; [apply framed_same_manager | apply framed_after_renew].
  - eapply framed_trans; [apply framed_same_manager | apply framed_after_keepalive].
  - apply framed_same_manager.
Qed.

Lemma framed_after_update s : framed s (after_update h s).
Proof.
  unfold after_update. destruct (has_id s).
  - apply framed_after_check.
  - eapply framed_trans; [apply framed_after_initialize | apply framed_after_check].
Qed.

Lemma run_framed o s :
  exists s', run h o s = (Returns tt, s') /\ framed s s'.
Proof.
  destruct o as [| | | |d]; cbn [run].
  - eexists. split; [apply update_run | apply framed_after_update].
  - eexists. split; [apply backup_run | apply framed_same_manager].
  - eexists. split; [apply renew_run | apply framed_after_renew].
  - eexists. split; [apply initializeAutomaticSession_run
                    | apply framed_after_initialize].
  - eexists. split; [apply initializeAutomaticSessionWithData_run
                    | apply framed_after_parse].
Qed.

End Frames.

(** No operation changes the configuration, and the timestamp of the last
    cookie write changes only in an operation that writes the cookie:
    every operation returns, keeps [config], does not lower the number of
    cookie writes in the trace and, if it adds none, keeps
    [cookieUpdatedTimestamp]. *)
Theorem operations_keep_config_and_timestamp
    (h : Host) (o : operation) (s : machine) :
  exists s',
    run h o s = (Returns tt, s') /\
    config (self s') = config (self s) /\
    (cookie_writes (calls s) <= cookie_writes (calls s'))%nat /\
    (cookie_writes (calls s') = cookie_writes (calls s) ->
     cookieUpdatedTimestamp (self s') = cookieUpdatedTimestamp (self s)).
Proof.
  destruct (run_framed h o s) as (s' & Hrun & Hframed).
  exists s'. split; [exact Hrun | exact Hframed].
Qed.

(** ** Date fields read from a payload *)

Lemma Qabs_le_quot q m :
  0 <= m -> Qle_bool (Qabs q) (inject_Z m) = true ->
  Z.abs (Z.quot (Qnum q) (Zpos (Qden q))) <= m.
Proof.
  intros Hm H. apply Qle_bool_iff in H.
  destruct q as [n d]. unfold Qle in H. cbn in H. cbn [Qnum Qden].
  rewrite Z.mul_1_r in H.
  rewrite <- (Z.abs_eq (Zpos d)) at 1 by lia.
  rewrite <- Z.quot_abs by lia. rewrite (Z.abs_eq (Zpos d)) by lia.
  rewrite <- (Z.quot_mul m (Zpos d)) by lia.
  apply Z.quot_le_mono; lia.
Qed.

Lemma TimeClip_range n :
  TimeClip n = NaN \/ exists z, TimeClip n = Int z /\ Z.abs z <= maxTime.
Proof.
  destruct n as [| |z|q]; cbn [TimeClip]; auto.
  - destruct (Z.leb_spec (Z.abs z) maxTime); [right; eauto | left; reflexivity].
  - destruct (Qle_bool (Qabs q) (inject_Z maxTime)) eqn:E; [right | left; reflexivity].
    eexists. split; [reflexivity |]. apply Qabs_le_quot; [unfold maxTime; lia | exact E].
Qed.

Lemma field_time_range h p :
  exists z, field_time h p = Int z /\ 0 <= z <= maxTime.
Proof.
  unfold field_time, positive_or_zero, num_gt.
  destruct (TimeClip_range (StringToNumber h p)) as [-> | (z & -> & Hz)].
  - exists 0. split; [reflexivity | unfold maxTime; lia].
  - cbn [num_lt]. destruct (Z.ltb_spec 0 z).
    + exists z. split; [reflexivity | lia].
    + exists 0. split; [reflexivity | unfold maxTime; lia].
Qed.

(** Whatever the payload and whatever the host makes of its strings,
    [initializeAutomaticSessionWithData] returns, and each date of the
    session is then either what it was before (the payload has no such
    field) or an integer between [0] and 8.64e15: never NaN, never
    negative, never fractional. *)
Theorem parsed_dates_are_time_values (h : Host) (sessionData : string) (s : machine) :
  exists s',
    initializeAutomaticSessionWithData h sessionData s = (Returns tt, s') /\
    (acquisitionDate (session_of s') = acquisitionDate (session_of s) \/
     exists a, acquisitionDate (session_of s') = Some (Int a) /\ 0 <= a <= maxTime) /\
    (renewalDate (session_of s') = renewalDate (session_of s) \/
     exists r, renewalDate (session_of s') = Some (Int r) /\ 0 <= r <= maxTime).
Proof.
  exists (after_parse h (split delimiter sessionData) s).
  split; [apply initializeAutomaticSessionWithData_run |].
  unfold after_parse, session_of, parsed;
    cbn [self automaticSession with_session acquisitionDate renewalDate].
  split.
  - destruct (nth_error _ 1) as [p|]; [right | left; reflexivity].
    destruct (field_time_range h p) as (z & -> & Hz). eauto.
  - destruct (nth_error _ 2) as [p|]; [right | left; reflexivity].
    destruct (field_time_range h p) as (z & -> & Hz). eauto.
Qed.

(** ** When [update] renews *)

Lemma acquisitionExpired_Int now m a :
  acquisitionDate (automaticSession m) = Some (Int a) ->
  acquisitionExpired now m = (config_sessionExpirationMs (config m) <? now - a).
Proof. unfold acquisitionExpired. intros ->. apply num_gt_sub_Int. Qed.

Lemma renewalExpired_Int now m r :
  renewalDate (automaticSession m) = Some (Int r) ->
  renewalExpired now m = (config_sessionRenewalMs (config m) <? now - r).
Proof. unfold renewalExpired. intros ->. apply num_gt_sub_Int. Qed.

Lemma acquisitionExpired_unset now m :
  acquisitionDate (automaticSession m) = None -> acquisitionExpired now m = false.
Proof. unfold acquisitionExpired. intros ->. reflexivity. Qed.

Lemma renewalExpired_unset now m :
  renewalDate (automaticSession m) = None -> renewalExpired now m = false.
Proof. unfold renewalExpired. intros ->. reflexivity. Qed.

Lemma after_update_expired h s :
  has_id s = true ->
  acquisitionExpired (DateTimeUtils_Now h (calls s)) (self s)
  || renewalExpired (DateTimeUtils_Now h (calls s)) (self s) = true ->
  update h s = renew h {| self := self s; calls := Call_Now :: calls s |}.
Proof.
  intros Hid Hexp. rewrite update_run, renew_run.
  unfold after_update, after_check. rewrite Hid, Hexp. reflexivity.
Qed.

Lemma after_update_not_expired h s :
  has_id s = true ->
  acquisitionExpired (DateTimeUtils_Now h (calls s)) (self s)
  || renewalExpired (DateTimeUtils_Now h (calls s)) (self s) = false ->
  id (session_of (after_update h s)) = id (session_of s) /\
  acquisitionDate (session_of (after_update h s)) = acquisitionDate (session_of s) /\
  minted (calls (after_update h s)) = minted (calls s).
Proof.
  intros Hid Hexp. unfold after_update, after_check. rewrite Hid, Hexp.
  destruct (cookieWriteDue _ _); repeat split.
Qed.

(** For a session with an id and dates [a] and [r], at clock reading [now],
    all three between [0] and [2^53] so that the differences are exact in
    binary64: if [now - a > sessionExpirationMs()] or
    [now - r > sessionRenewalMs()], [update] ends as [renew] does once the
    clock has been read; otherwise, and in particular exactly at the edge
    of a window, it keeps the id and the acquisition date and mints no
    id. *)
Theorem update_renews_exactly_past_a_window
    (h : Host) (s : machine) (now a r : Z) :
  has_id s = true ->
  acquisitionDate (session_of s) = Some (Int a) ->
  renewalDate (session_of s) = Some (Int r) ->
  DateTimeUtils_Now h (calls s) = now ->
  0 <= a <= safeInteger ->
  0 <= r <= safeInteger ->
  0 <= now <= safeInteger ->
  (config_sessionExpirationMs (config (self s)) < now - a \/
   config_sessionRenewalMs (config (self s)) < now - r ->
   update h s = renew h {| self := self s; calls := Call_Now :: calls s |}) /\
  (now - a <= config_sessionExpirationMs (config (self s)) /\
   now - r <= config_sessionRenewalMs (config (self s)) ->
   exists s',
     update h s = (Returns tt, s') /\
     id (session_of s') = id (session_of s) /\
     acquisitionDate (session_of s') = Some (Int a) /\
     minted (calls s') = minted (calls s)).
Proof.
  intros Hid Ha Hr Hnow _ _ _. unfold session_of in Ha, Hr.
  pose proof (acquisitionExpired_Int now (self s) a Ha) as HA.
  pose proof (renewalExpired_Int now (self s) r Hr) as HR.
  split.
  - intros Hpast. apply after_update_expired; [exact Hid |].
    rewrite Hnow, HA, HR. apply orb_true_iff.
    destruct Hpast as [H | H]; [left | right]; apply Z.ltb_lt, H.
  - intros [Hwa Hwr]. exists (after_update h s). split; [apply update_run |].
    destruct (after_update_not_expired h s Hid) as (Hi & Hacq & Hm).
    + rewrite Hnow, HA, HR. apply orb_false_iff.
      split; apply Z.ltb_ge; assumption.
    + unfold session_of in *. rewrite Hacq, Ha. repeat split; assumption.
Qed.

Lemma update_renews_exactly_past_a_window_witness :
  let h := scripted_host None None true [1801000] ["s1"] in
  exists s',
    update h (live_machine None) = (Returns tt, s') /\
    id (session_of s') = id (session_of (live_machine None)) /\
    acquisitionDate (session_of s') = Some (Int 1000) /\
    minted (calls s') = minted (calls (live_machine None)).
Proof.
  intro h.
  assert (Hsafe : forall z, 0 <= z <= 1801000 -> 0 <= z <= safeInteger)
    by (intros z Hz; unfold safeInteger; lia).
  destruct (update_renews_exactly_past_a_window h (live_machine None)
              1801000 1000 1000 eq_refl eq_refl eq_refl eq_refl
              (Hsafe 1000 ltac:(lia)) (Hsafe 1000 ltac:(lia))
              (Hsafe 1801000 ltac:(lia))) as [_ Hkeep].
  apply Hkeep. split; vm_compute; discriminate.
Defined.

(** A session with an id and no acquisition date is never classified as
    acquisition-expired, however late the clock: the subtraction yields
    NaN and the comparison is false.  If its renewal date is unset too, or
    within the renewal window, [update] keeps the id, leaves the
    acquisition date unset and mints no id. *)
Theorem session_without_acquisition_date_is_kept
    (h : Host) (s : machine) (now : Z) :
  has_id s = true ->
  acquisitionDate (session_of s) = None ->
  DateTimeUtils_Now h (calls s) = now ->
  renewalDate (session_of s) = None \/ renewalExpired now (self s) = false ->
  acquisitionExpired now (self s) = false /\
  exists s',
    update h s = (Returns tt, s') /\
    id (session_of s') = id (session_of s) /\
    acquisitionDate (session_of s') = None /\
    minted (calls s') = minted (calls s).
Proof.
  intros Hid Ha Hnow Hr. unfold session_of in Ha.
  pose proof (acquisitionExpired_unset now (self s) Ha) as HA.
  assert (HR : renewalExpired now (self s) = false).
  { destruct Hr as [Hr | Hr]; [apply renewalExpired_unset, Hr | exact Hr]. }
  split; [exact HA |].
  exists (after_update h s). split; [apply update_run |].
  destruct (after_update_not_expired h s Hid) as (Hi & Hacq & Hm).
  - rewrite Hnow, HA, HR. reflexivity.
  - unfold session_of in *. rewrite Hacq, Ha. repeat split; assumption.
Qed.

Lemma session_without_acquisition_date_is_kept_witness :
  let h := scripted_host None None true [8000000000000000] ["s1"] in
  let s := snd (initializeAutomaticSessionWithData h "abc" (start None)) in
  acquisitionExpired 8000000000000000 (self s) = false /\
  exists s',
    update h s = (Returns tt, s') /\
    id (session_of s') = id (session_of s) /\
    acquisitionDate (session_of s') = None /\
    minted (calls s') = minted (calls s).
Proof.
  intros h s.
  apply (session_without_acquisition_date_is_kept h s 8000000000000000);
    try reflexivity.
  left. reflexivity.
Defined.

(** ** A clock that stands still *)

Lemma after_read_none h s :
  persisted h s = None ->
  after_read h s =
  {| self := self s;
     calls := Call_getStorage (_storageNamePrefix (config (self s)))
              :: Call_getCookie (_storageNamePrefix (config (self s)))
              :: calls s |}.
Proof.
  unfold persisted, after_read; cbn [calls self].
  destruct (Util_getCookie h (calls s) _) as [[|c rest]|]; try discriminate;
    destruct (Util_getStorage h _ _) as [[|c' rest']|]; try discriminate;
    reflexivity.
Qed.

Section SteadyClock.

Variable h : Host.
Variable now : Z.
Hypothesis clock_stands : forall t, DateTimeUtils_Now h t = now.
Hypothesis now_nonzero : now <> 0.

Lemma cookieWriteDue_just_written m :
  cookieUpdatedTimestamp m = Some (Int now) -> cookieWriteDue now m = false.
Proof.
  intros Hts. apply (cookieWriteDue_recent now m now Hts now_nonzero).
  unfold cookieUpdateInterval. lia.
Qed.

Lemma settled_after_renew s :
  0 <= config_sessionExpirationMs (config (self s)) ->
  0 <= config_sessionRenewalMs (config (self s)) ->
  Util_newId h (Call_Now :: calls s) <> "" ->
  settled now (self (after_renew h s)) = true.
Proof.
  intros HE HR Hid. unfold settled.
  rewrite (acquisitionExpired_Int now _ now), (renewalExpired_Int now _ now),
    cookieWriteDue_just_written;
    try (cbn; rewrite ?clock_stands; reflexivity).
  cbn [after_renew self with_timestamp with_session automaticSession id renewed
       truthy_opt config].
  rewrite (truthy_string_nonempty _ Hid).
  replace (_ <? now - now) with false by (symmetry; apply Z.ltb_ge; lia).
  replace (_ <? now - now) with false by (symmetry; apply Z.ltb_ge; lia).
  reflexivity.
Qed.

Lemma idle_after_renew s :
  0 <= config_sessionExpirationMs (config (self s)) ->
  0 <= config_sessionRenewalMs (config (self s)) ->
  after_check h (after_renew h s) =
  {| self := self (after_renew h s);
     calls := Call_Now :: calls (after_renew h s) |}.
Proof.
  intros HE HR. unfold after_check. rewrite clock_stands.
  rewrite (acquisitionExpired_Int now _ now), (renewalExpired_Int now _ now),
    cookieWriteDue_just_written;
    try (cbn; rewrite ?clock_stands; reflexivity).
  cbn [after_renew self with_timestamp with_session config].
  replace (_ <? now - now) with false by (symmetry; apply Z.ltb_ge; lia).
  replace (_ <? now - now) with false by (symmetry; apply Z.ltb_ge; lia).
  reflexivity.
Qed.

Lemma settled_after_keepalive s :
  has_id s = true ->
  acquisitionExpired now (self s) = false ->
  0 <= config_sessionRenewalMs (config (self s)) ->
  settled now (self (after_keepalive h now
                       {| self := self s; calls := Call_Now :: calls s |})) = true.
Proof.
  intros Hid HA HR. unfold settled.
  rewrite (renewalExpired_Int now _ now), cookieWriteDue_just_written;
    try (cbn; rewrite ?clock_stands; reflexivity).
  unfold has_id in Hid.
  cbn [after_keepalive self with_timestamp with_session automaticSession id
       kept_alive config].
  rewrite Hid.
  replace (acquisitionExpired now _) with false by (symmetry; exact HA).
  replace (_ <? now - now) with false by (symmetry; apply Z.ltb_ge; lia).
  reflexivity.
Qed.

Lemma settled_after_check s :
  has_id s = true ->
  0 <= config_sessionExpirationMs (config (self s)) ->
  0 <= config_sessionRenewalMs (config (self s)) ->
  (forall t, Util_newId h t <> "") ->
  settled now (self (after_check h s)) = true.
Proof.
  intros Hid HE HR Hids. unfold after_check. rewrite clock_stands.
  destruct (acquisitionExpired now (self s)) eqn:EA;
    [| destruct (renewalExpired now (self s)) eqn:ER]; cbn [orb].
  - apply settled_after_renew; auto.
  - apply settled_after_renew; auto.
  - destruct (cookieWriteDue now (self s)) eqn:ED.
    + apply settled_after_keepalive; assumption.
    + unfold settled. unfold has_id in Hid. cbn [self]. rewrite Hid, EA, ER, ED.
      reflexivity.
Qed.

Lemma settled_after_update s :
  0 <= config_sessionExpirationMs (config (self s)) ->
  0 <= config_sessionRenewalMs (config (self s)) ->
  (forall t, Util_newId h t <> "") ->
  settled now (self (after_update h s)) = true.
Proof.
  intros HE HR Hids. unfold after_update.
  destruct (has_id s) eqn:Hid.
  - apply settled_after_check; assumption.
  - apply settled_after_check.
    + apply has_id_after_initialize, Hids.
    + rewrite config_after_initialize. exact HE.
    + rewrite config_after_initialize. exact HR.
    + exact Hids.
Qed.

Lemma settled_update_is_idle s :
  settled now (self s) = true ->
  after_update h s = {| self := self s; calls := Call_Now :: calls s |}.
Proof.
  unfold settled. intros H.
  apply andb_true_iff in H as [H Hdue]. apply andb_true_iff in H as [Hid Hexp].
  apply negb_true_iff in Hdue, Hexp.
  unfold after_update, after_check, has_id.
  rewrite Hid, clock_stands, Hexp, Hdue. reflexivity.
Qed.

End SteadyClock.

(** With the clock standing at a non-zero [now], non-negative windows and an
    id generator that issues non-empty ids: whatever [update] had to do
    (initialize, renew, keep alive or nothing), an [update] that follows
    it changes nothing in the manager and only reads the clock. *)
Theorem update_twice_at_the_same_time (h : Host) (s : machine) (now : Z) :
  (forall t, DateTimeUtils_Now h t = now) ->
  now <> 0 ->
  0 <= config_sessionExpirationMs (config (self s)) ->
  0 <= config_sessionRenewalMs (config (self s)) ->
  (forall t, Util_newId h t <> "") ->
  exists s',
    update h s = (Returns tt, s') /\
    update h s' = (Returns tt, {| self := self s'; calls := Call_Now :: calls s' |}).
Proof.
  intros Hclock Hnz HE HR Hids. exists (after_update h s).
  split; [apply update_run |]. rewrite update_run. f_equal.
  apply (settled_update_is_idle h now Hclock).
  apply settled_after_update; assumption.
Qed.

Lemma update_twice_at_the_same_time_witness :
  let h := scripted_host (Some "abc|1000|1000") None true [5000000] ["s1"] in
  exists s',
    update h (start None) = (Returns tt, s') /\
    update h s' = (Returns tt, {| self := self s'; calls := Call_Now :: calls s' |}).
Proof.
  intro h.
  apply (update_twice_at_the_same_time h (start None) 5000000).
  - intros t. simpl. apply scripted_single.
  - discriminate.
  - vm_compute; discriminate.
  - vm_compute; discriminate.
  - intros t. simpl. rewrite scripted_single. discriminate.
Defined.

(** A first visit.  The session has no id, neither the cookie nor local
    storage holds a payload, the clock stands at a non-zero [now] and the
    windows are not negative.  [update] reads the cookie, then local
    storage, renews, and is done: the session carries the id the generator
    issued with acquisition and renewal date [now], the cookie has been
    written exactly once and exactly one id has been minted. *)
Theorem update_on_a_first_visit (h : Host) (s : machine) (now : Z) :
  has_id s = false ->
  persisted h s = None ->
  (forall t, DateTimeUtils_Now h t = now) ->
  now <> 0 ->
  0 <= config_sessionExpirationMs (config (self s)) ->
  0 <= config_sessionRenewalMs (config (self s)) ->
  exists s' g,
    update h s = (Returns tt, s') /\
    session_of s' =
      {| id := Some g; acquisitionDate := Some (Int now);
         renewalDate := Some (Int now) |} /\
    g = Util_newId h
          (Call_Now :: Call_getStorage (_storageNamePrefix (config (self s)))
           :: Call_getCookie (_storageNamePrefix (config (self s))) :: calls s) /\
    cookieUpdatedTimestamp (self s') = Some (Int now) /\
    cookie_writes (calls s') = S (cookie_writes (calls s)) /\
    minted (calls s') = S (minted (calls s)).
Proof.
  intros Hid Hnone Hclock Hnz HE HR.
  exists (after_update h s). eexists. split; [apply update_run |].
  unfold after_update, after_initialize. rewrite Hid.
  rewrite (after_read_none h s Hnone).
  replace (has_id _) with false by (symmetry; exact Hid).
  set (s2 := {| self := self s; calls := _ |}).
  assert (Hquiet : after_check h (after_renew h s2) =
                   {| self := self (after_renew h s2);
                      calls := Call_Now :: calls (after_renew h s2) |})
    by (apply (idle_after_renew h now Hclock Hnz s2); assumption).
  rewrite Hquiet.
  destruct (after_renew_facts h s2) as (Hsess & _ & Hcw & Hmint & _).
  unfold session_of in *. cbn [self calls].
  unfold cookie_writes, minted in *. rewrite !count_cons, Hcw, Hmint.
  cbn [is_Call_setCookie is_Call_newId].
  rewrite Hsess. unfold renewed. rewrite !Hclock.
  subst s2. cbn [calls self after_renew with_timestamp cookieUpdatedTimestamp].
  rewrite !count_cons, !Hclock. cbn [is_Call_setCookie is_Call_newId].
  repeat split.
Qed.

Lemma update_on_a_first_visit_witness :
  let h := scripted_host None None true [5000] ["s1"] in
  exists s' g,
    update h (start None) = (Returns tt, s') /\
    session_of s' =
      {| id := Some g; acquisitionDate := Some (Int 5000);
         renewalDate := Some (Int 5000) |} /\
    g = Util_newId h
          [Call_Now; Call_getStorage "ai_session"; Call_getCookie "ai_session"] /\
    cookieUpdatedTimestamp (self s') = Some (Int 5000) /\
    cookie_writes (calls s') = S (cookie_writes (calls (start None))) /\
    minted (calls s') = S (minted (calls (start None))).
Proof.
  intro h.
  apply (update_on_a_first_visit h (start None) 5000).
  - reflexivity.
  - reflexivity.
  - intros t. simpl. apply scripted_single.
  - discriminate.
  - vm_compute; discriminate.
  - vm_compute; discriminate.
Defined.

(** ** Initialization: the cookie first, local storage as a fallback *)

Lemma storage_reads_after_renew h s :
  storage_reads (calls (after_renew h s)) = storage_reads (calls s).
Proof.
  unfold storage_reads, after_renew, renew_trace; cbn [calls].
  destruct (Util_canUseLocalStorage h _); rewrite !count_cons; reflexivity.
Qed.

Lemma storage_reads_after_parse h params s :
  storage_reads (calls (after_parse h params s)) = storage_reads (calls s).
Proof.
  unfold storage_reads, after_parse; cbn [calls].
  destruct (is_zero _); rewrite ?count_cons; reflexivity.
Qed.

(** When the cookie is a non-empty string, initialization parses it and
    never consults local storage, whatever local storage holds: it ends as
    the parse of the cookie does if that yields a non-empty id, and as
    [renew] after that parse otherwise; no [Util.getStorage] call is
    added to the trace. *)
Theorem cookie_takes_priority_over_storage (h : Host) (s : machine) (c : string) :
  Util_getCookie h (calls s) (_storageNamePrefix (config (self s))) = Some c ->
  c <> "" ->
  exists s1 s',
    initializeAutomaticSessionWithData h c
      {| self := self s;
         calls := Call_getCookie (_storageNamePrefix (config (self s))) :: calls s |}
      = (Returns tt, s1) /\
    initializeAutomaticSession h s = (Returns tt, s') /\
    (if has_id s1 then s' = s1 else renew h s1 = (Returns tt, s')) /\
    storage_reads (calls s') = storage_reads (calls s).
Proof.
  intros Hc Hne. destruct c as [|a c]; [congruence |].
  eexists. exists (after_initialize h s).
  split; [apply initializeAutomaticSessionWithData_run |].
  split; [apply initializeAutomaticSession_run |].
  unfold after_initialize, after_read. rewrite Hc.
  set (s1 := after_parse h _ _).
  assert (Hs1 : storage_reads (calls s1) = storage_reads (calls s)).
  { subst s1. rewrite storage_reads_after_parse. cbn [calls].
    unfold storage_reads. rewrite count_cons. reflexivity. }
  destruct (has_id s1).
  - split; [reflexivity | exact Hs1].
  - split; [apply renew_run |]. rewrite storage_reads_after_renew. exact Hs1.
Qed.

Lemma cookie_takes_priority_over_storage_witness :
  let h := scripted_host (Some "abc|1000|2000") (Some "xyz|1|2") true [5000] ["s1"] in
  exists s1 s',
    initializeAutomaticSessionWithData h "abc|1000|2000"
      {| self := self (start None); calls := [Call_getCookie "ai_session"] |}
      = (Returns tt, s1) /\
    initializeAutomaticSession h (start None) = (Returns tt, s') /\
    (if has_id s1 then s' = s1 else renew h s1 = (Returns tt, s')) /\
    storage_reads (calls s') = storage_reads (calls (start None)).
Proof.
  intro h.
  apply (cookie_takes_priority_over_storage h (start None) "abc|1000|2000").
  - reflexivity.
  - discriminate.
Defined.

(** Restoring a backup.  What [backup] hands to [Util.setStorage] for a
    session with a non-empty id without delimiter and dates in
    [(0, 8.64e15]] is the triple of its fields; a manager that finds no
    cookie and finds that triple in local storage initializes to the same
    session, mints no id and writes no cookie. *)
Theorem backup_is_restored_when_the_cookie_is_gone
    (h : Host) (g : string) (a r : Z) (s s0 : machine) :
  g <> "" ->
  all_chars not_delimiter g = true ->
  0 < a <= maxTime ->
  0 < r <= maxTime ->
  session_of s =
    {| id := Some g; acquisitionDate := Some (Int a);
       renewalDate := Some (Int r) |} ->
  truthy_opt truthy_string
    (Util_getCookie h (calls s0) (_storageNamePrefix (config (self s0)))) = false ->
  Util_getStorage h
    (Call_getCookie (_storageNamePrefix (config (self s0))) :: calls s0)
    (_storageNamePrefix (config (self s0)))
    = Some (String.concat "|" [g; decimal a; decimal r]) ->
  backup h s =
    (Returns tt,
     {| self := self s;
        calls := Call_setStorage (_storageNamePrefix (config (self s)))
                   (String.concat "|" [g; decimal a; decimal r])
                 :: calls s |}) /\
  exists s',
    initializeAutomaticSession h s0 = (Returns tt, s') /\
    session_of s' = session_of s /\
    minted (calls s') = minted (calls s0) /\
    cookie_writes (calls s') = cookie_writes (calls s0).
Proof.
  intros Hne Hg Ha Hr Hs Hcookie Hstorage. split.
  - rewrite backup_run. unfold storage_write.
    unfold session_of in Hs. rewrite Hs. cbn [id acquisitionDate renewalDate].
    rewrite join3_time by assumption. reflexivity.
  - exists (after_initialize h s0). split; [apply initializeAutomaticSession_run |].
    assert (Hread : after_read h s0 =
      {| self := with_session (self s0) (session_of s);
         calls := Call_getStorage (_storageNamePrefix (config (self s0)))
                  :: Call_getCookie (_storageNamePrefix (config (self s0)))
                  :: calls s0 |}).
    { unfold after_read. cbn [calls self]. rewrite Hstorage.
      assert (Hp : exists c rest,
                String.concat "|" [g; decimal a; decimal r] = String c rest).
      { destruct g as [|c g']; [congruence |]. cbn. eauto. }
      destruct Hp as (c & rest & Hp).
      assert (Hparse :
        after_parse h (split delimiter (String.concat "|" [g; decimal a; decimal r]))
          {| self := self s0;
             calls := Call_getStorage (_storageNamePrefix (config (self s0)))
                      :: Call_getCookie (_storageNamePrefix (config (self s0)))
                      :: calls s0 |} =
        {| self := with_session (self s0) (session_of s);
           calls := Call_getStorage (_storageNamePrefix (config (self s0)))
                    :: Call_getCookie (_storageNamePrefix (config (self s0)))
                    :: calls s0 |}).
      { rewrite split_triple;
          [| exact Hg | apply decimal_no_delimiter; lia
           | apply decimal_no_delimiter; lia].
        unfold after_parse, parsed. cbn [nth_error].
        rewrite !field_time_decimal by assumption.
        rewrite Hs. cbn [renewalDate is_zero self calls].
        destruct r as [|p|p]; try lia. reflexivity. }
      rewrite Hp in *.
      destruct (Util_getCookie h (calls s0) _) as [[|c0 rest0]|];
        try discriminate Hcookie; exact Hparse. }
    unfold after_initialize. rewrite Hread.
    assert (Hhas : has_id {| self := with_session (self s0) (session_of s);
                             calls := Call_getStorage
                                        (_storageNamePrefix (config (self s0)))
                                      :: Call_getCookie
                                           (_storageNamePrefix (config (self s0)))
                                      :: calls s0 |} = true).
    { unfold has_id. cbn [self with_session automaticSession].
      rewrite Hs. cbn. apply truthy_string_nonempty, Hne. }
    rewrite Hhas. unfold minted, cookie_writes. cbn [calls].
    rewrite !count_cons. repeat split.
Qed.

Lemma backup_is_restored_when_the_cookie_is_gone_witness :
  let h := scripted_host None (Some "abc|1700000000000|1700000060000") true
             [5000] ["s1"] in
  backup h sample_machine =
    (Returns tt,
     {| self := self sample_machine;
        calls := [Call_setStorage "ai_session" "abc|1700000000000|1700000060000"] |}) /\
  exists s',
    initializeAutomaticSession h (start None) = (Returns tt, s') /\
    session_of s' = session_of sample_machine /\
    minted (calls s') = minted (calls (start None)) /\
    cookie_writes (calls s') = cookie_writes (calls (start None)).
Proof.
  intro h.
  apply (backup_is_restored_when_the_cookie_is_gone h "abc"
           1700000000000 1700000060000 sample_machine (start None)).
  - discriminate.
  - reflexivity.
  - unfold maxTime; lia.
  - unfold maxTime; lia.
  - reflexivity.
  - reflexivity.
  - reflexivity.
Defined.

(** ** More on parsing *)

Lemma is_zero_spec v : is_zero v = true <-> v = Some (Int 0).
Proof.
  split.
  - destruct v as [[| |[|p|p]|]|]; try discriminate. reflexivity.
  - intros ->. reflexivity.
Qed.

(** Parsing talks to no collaborator except the logger, and to the logger
    only for the zero-renewal warning: if the renewal date is [0] after the
    parse (also when the payload had no renewal field and the date was [0]
    already) exactly that warning is added to the trace, and otherwise the
    trace is unchanged. *)
Theorem parsing_warns_exactly_on_zero_renewal
    (h : Host) (sessionData : string) (s : machine) :
  exists s',
    initializeAutomaticSessionWithData h sessionData s = (Returns tt, s') /\
    ((renewalDate (session_of s') = Some (Int 0) /\
      calls s' = renewal_zero_warning :: calls s) \/
     (renewalDate (session_of s') <> Some (Int 0) /\ calls s' = calls s)).
Proof.
  exists (after_parse h (split delimiter sessionData) s).
  split; [apply initializeAutomaticSessionWithData_run |].
  unfold after_parse, session_of; cbn [self calls with_session automaticSession].
  destruct (is_zero _) eqn:E.
  - left. split; [apply is_zero_spec, E | reflexivity].
  - right. split; [| reflexivity].
    intros H. apply is_zero_spec in H. congruence.
Qed.

Lemma parsed_idempotent h params a :
  parsed h params (parsed h params a) = parsed h params a.
Proof.
  unfold parsed; cbn [id acquisitionDate renewalDate].
  destruct (nth_error params 0), (nth_error params 1), (nth_error params 2);
    reflexivity.
Qed.

(** Parsing the same payload a second time changes nothing in the manager:
    the session after the second parse is the session after the first. *)
Theorem parsing_twice_is_parsing_once
    (h : Host) (sessionData : string) (s : machine) :
  exists s1 s2,
    initializeAutomaticSessionWithData h sessionData s = (Returns tt, s1) /\
    initializeAutomaticSessionWithData h sessionData s1 = (Returns tt, s2) /\
    self s2 = self s1.
Proof.
  exists (after_parse h (split delimiter sessionData) s).
  eexists. split; [apply initializeAutomaticSessionWithData_run |].
  split; [apply initializeAutomaticSessionWithData_run |].
  unfold after_parse; cbn [self with_session automaticSession config
                           cookieUpdatedTimestamp].
  rewrite parsed_idempotent. reflexivity.
Qed.

Lemma split_append sep x y :
  split sep (x ++ String sep y) = (split sep x ++ split sep y)%list.
Proof.
  induction x as [|c x IH]; simpl.
  - rewrite Ascii.eqb_refl. reflexivity.
  - destruct (Ascii.eqb c sep).
    + rewrite IH. reflexivity.
    + rewrite IH. pose proof (split_nonempty sep x) as Hne.
      destruct (split sep x); [congruence | reflexivity].
Qed.

Lemma parsed_three_fields h params more a b :
  (3 <= List.length params)%nat ->
  parsed h (params ++ more) a = parsed h params b.
Proof.
  intros Hlen. unfold parsed.
  rewrite !nth_error_app1 by lia.
  destruct params as [|p0 [|p1 [|p2 rest]]]; cbn in Hlen; try lia.
  reflexivity.
Qed.

(** A payload with at least three fields overwrites the session whole and
    its further fields are ignored: parsing it in any machine, with or
    without more text appended after another delimiter, yields one and the
    same session. *)
Theorem three_fields_decide_the_session
    (h : Host) (sessionData more : string) (s s0 : machine) :
  (3 <= List.length (split delimiter sessionData))%nat ->
  exists s1 s2,
    initializeAutomaticSessionWithData h sessionData s = (Returns tt, s1) /\
    initializeAutomaticSessionWithData h
      (sessionData ++ String delimiter more) s0 = (Returns tt, s2) /\
    session_of s2 = session_of s1.
Proof.
  intros Hlen. eexists. eexists.
  split; [apply initializeAutomaticSessionWithData_run |].
  split; [apply initializeAutomaticSessionWithData_run |].
  rewrite split_append. unfold after_parse, session_of;
    cbn [self with_session automaticSession].
  apply parsed_three_fields, Hlen.
Qed.

Lemma three_fields_decide_the_session_witness :
  let h := scripted_host None None true [5000] ["s1"] in
  exists s1 s2,
    initializeAutomaticSessionWithData h "abc|1000|2000" (start None)
      = (Returns tt, s1) /\
    initializeAutomaticSessionWithData h
      ("abc|1000|2000" ++ String delimiter "x|y") sample_machine
      = (Returns tt, s2) /\
    session_of s2 = session_of s1.
Proof.
  intro h.
  apply (three_fields_decide_the_session h "abc|1000|2000" "x|y"
           (start None) sample_machine).
  simpl. lia.
Defined.

(** ** [renew] and the cookie it writes *)

(** [renew] reads the clock, mints one id, installs the session
    [id, now, now], writes the cookie once, records a second clock reading
    as the time of the write and then asks whether local storage is
    usable.  The answer changes nothing in the manager: it only decides
    whether one warning is logged.  [renew] never writes to local
    storage. *)
Theorem renew_installs_a_new_session (h : Host) (s : machine) :
  exists s' w,
    renew h s = (Returns tt, s') /\
    session_of s' =
      {| id := Some (Util_newId h (Call_Now :: calls s));
         acquisitionDate := Some (Int (DateTimeUtils_Now h (calls s)));
         renewalDate := Some (Int (DateTimeUtils_Now h (calls s))) |} /\
    cookieUpdatedTimestamp (self s') =
      Some (Int (DateTimeUtils_Now h
                   (cookie_write h (config (self s)) (session_of s')
                    :: Call_newId :: Call_Now :: calls s))) /\
    calls s' =
      (w ++ Call_canUseLocalStorage :: Call_Now
         :: cookie_write h (config (self s)) (session_of s')
         :: Call_newId :: Call_Now :: calls s)%list /\
    w = (if Util_canUseLocalStorage h
              (Call_Now :: cookie_write h (config (self s)) (session_of s')
               :: Call_newId :: Call_Now :: calls s)
         then [] else [local_storage_warning]) /\
    storage_writes (calls s') = storage_writes (calls s).
Proof.
  exists (after_renew h s).
  exists (if Util_canUseLocalStorage h (renew_trace h (config (self s)) (calls s))
          then [] else [local_storage_warning]).
  split; [apply renew_run |].
  unfold after_renew, session_of, renew_trace, storage_writes;
    cbn [self calls with_timestamp with_session automaticSession
         cookieUpdatedTimestamp].
  split; [reflexivity |]. split; [reflexivity |].
  split; [| split; [reflexivity |]];
    destruct (Util_canUseLocalStorage h _); rewrite ?count_cons; reflexivity.
Qed.

Lemma cookieExpiry_without_acquisition c r :
  cookieExpiry c None (Some (Int r)) = setTime (Int (r + config_sessionRenewalMs c)).
Proof. reflexivity. Qed.

(** A cookie write for a session without acquisition date (a cookie that
    held an id only): the acquisition field of the triple is empty and,
    the sum with an undefined date being NaN and no number being less than
    NaN, the cookie expires at the renewal deadline
    [renewal + sessionRenewalMs()]. *)
Theorem cookie_without_acquisition_date_expires_at_renewal_deadline
    (h : Host) (g : string) (r : Z) (s : machine) :
  exists ts,
    setCookie h (Some g) None (Some (Int r)) s =
    (Returns tt,
     {| self := with_timestamp (self s) ts;
        calls :=
          Call_Now
          :: Call_setCookie (_storageNamePrefix (config (self s)))
               ((g ++ "||" ++ Number_toString h (Int r))
                  ++ ";expires="
                  ++ toUTCString h
                       (setTime (Int (r + config_sessionRenewalMs (config (self s))))))
               (config_cookieDomain (config (self s)))
          :: calls s |}).
Proof.
  eexists. rewrite setCookie_run. unfold cookie_write.
  cbn [id acquisitionDate renewalDate].
  rewrite cookieExpiry_without_acquisition. reflexivity.
Qed.

(** ** The persisted state is read once *)

Lemma reads_after_renew h s : reads (calls (after_renew h s)) = reads (calls s).
Proof.
  unfold reads, after_renew, renew_trace; cbn [calls].
  destruct (Util_canUseLocalStorage h _); rewrite !count_cons; reflexivity.
Qed.

Lemma reads_after_check h s : reads (calls (after_check h s)) = reads (calls s).
Proof.
  unfold after_check.
  destruct (_ || _); [rewrite reads_after_renew | destruct (cookieWriteDue _ _)];
    unfold reads, after_keepalive; cbn [calls]; rewrite !count_cons; reflexivity.
Qed.

(** Once the session has a non-empty id, [update] works from memory: it
    reads neither the cookie nor local storage, so a cookie changed or
    removed behind the manager's back goes unnoticed. *)
Theorem initialized_update_reads_no_persisted_state (h : Host) (s : machine) :
  has_id s = true ->
  exists s',
    update h s = (Returns tt, s') /\
    reads (calls s') = reads (calls s).
Proof.
  intros Hid. exists (after_update h s). split; [apply update_run |].
  unfold after_update. rewrite Hid. apply reads_after_check.
Qed.

Lemma initialized_update_reads_no_persisted_state_witness :
  let h := scripted_host (Some "xyz|1|2") (Some "uvw|3|4") true [5000000] ["s1"] in
  exists s',
    update h (live_machine None) = (Returns tt, s') /\
    reads (calls s') = reads (calls (live_machine None)).
Proof.
  intro h.
  apply (initialized_update_reads_no_persisted_state h (live_machine None)).
  reflexivity.
Defined.
